(** * simple_fs image packer and inspector (scripts/make_init_simple_fs.py)

    A shallow embedding of the packing tool: the image format, [pack_file],
    [collect_files], [make_simple_fs] and [inspect_simple_fs], together with
    the parts of the Python runtime they rely on ([struct], UTF-8, [sorted],
    [pathlib]).  Python integers are [Z], [bytes] are [list byte], [str] is a
    list of Unicode code points, and a raised exception is the [Raise] case of
    [result].  The link rewriting of scripts/rewrite_links.py follows, with
    the matching of its one regular expression written out. *)

From Stdlib Require Import ZArith List Lia Bool Ascii String.
From Stdlib.Strings Require Import Byte.
From Stdlib Require Import Sorted Permutation.
From stdpp Require Import base tactics option list sorting.

Local Open Scope Z_scope.

(** ** Exceptions and results *)

Inductive exn : Type :=
| StructError          (* struct.error *)
| UnicodeEncodeError
| UnicodeDecodeError.

Inductive result (A : Type) : Type :=
| Ok (a : A)
| Raise (e : exn).
Arguments Ok {A} a.
Arguments Raise {A} e.

Definition rbind {A B} (r : result A) (k : A -> result B) : result B :=
  match r with
  | Ok a => k a
  | Raise e => Raise e
  end.

Definition rmap {A B} (f : A -> B) (r : result A) : result B :=
  rbind r (fun a => Ok (f a)).

Notation "'do' x <- r ; k" := (rbind r (fun x => k))
  (at level 10, x pattern, r at level 100, k at level 200).

(** ** Bytes *)

Definition Z_of_byte (b : byte) : Z := Z.of_N (Byte.to_N b).

Definition byte_of_Z (z : Z) : byte :=
  match Byte.of_N (Z.to_N (z mod 256)) with
  | Some b => b
  | None => x00
  end.

(** [b'\0' * n]: a negative count gives the empty bytes object. *)
Definition zeros (n : Z) : list byte := repeat x00 (Z.to_nat n).

(** [len(x)] as a Python integer. *)
Definition len {A} (l : list A) : Z := Z.of_nat (length l).

(** ** Constants (lines 21-27) *)

Definition MAGIC : list byte := [x52; x41; x4d; x44; x49; x53; x4b; x00].
Definition FILE_MAGIC : Z := 0x46494C45.
Definition BLOCK_SIZE : Z := 512.
Definition FILE_TYPE_FILE : Z := 0.
Definition FILE_TYPE_DIR : Z := 1.

(** ** align_to (line 30) *)

Definition align_to (size alignment : Z) : Z :=
  (size + alignment - 1) / alignment * alignment.

(** ** struct: little-endian unsigned 32-bit fields *)

(** One [I] field of a [<] format: four bytes, least significant first;
    a value outside [0, 2^32) raises struct.error. *)
Definition pack_I (v : Z) : result (list byte) :=
  if (0 <=? v) && (v <? 2 ^ 32)
  then Ok [byte_of_Z v; byte_of_Z (v / 2 ^ 8);
           byte_of_Z (v / 2 ^ 16); byte_of_Z (v / 2 ^ 24)]
  else Raise StructError.

(** [struct.pack('<nI', v1, ..., vn)]. *)
Fixpoint struct_pack (vs : list Z) : result (list byte) :=
  match vs with
  | [] => Ok []
  | v :: vs' =>
      do b <- pack_I v;
      do bs <- struct_pack vs';
      Ok (b ++ bs)
  end.

Definition le_decode (bs : list byte) : Z :=
  fold_right (fun b acc => Z_of_byte b + 256 * acc) 0 bs.

Fixpoint chunks4 (n : nat) (bs : list byte) : list (list byte) :=
  match n with
  | O => []
  | S n' => firstn 4 bs :: chunks4 n' (skipn 4 bs)
  end.

(** [struct.unpack('<nI', bs)]: the buffer must hold exactly [4 * n] bytes. *)
Definition struct_unpack (n : nat) (bs : list byte) : result (list Z) :=
  if Nat.eqb (length bs) (4 * n)
  then Ok (map le_decode (chunks4 n bs))
  else Raise StructError.

(** ** str and UTF-8 *)

(** A Python [str] is a sequence of code points. *)
Abbreviation pystr := (list Z).

Definition pystr_of (s : string) : pystr :=
  map (fun a => Z.of_N (N_of_ascii a)) (list_ascii_of_string s).

Definition utf8_encode_cp (c : Z) : result (list byte) :=
  if c <? 0 then Raise UnicodeEncodeError
  else if c <? 0x80 then Ok [byte_of_Z c]
  else if c <? 0x800 then
    Ok [byte_of_Z (0xC0 + c / 64); byte_of_Z (0x80 + c mod 64)]
  else if c <? 0x10000 then
    if (0xD800 <=? c) && (c <=? 0xDFFF) then Raise UnicodeEncodeError
    else Ok [byte_of_Z (0xE0 + c / 4096);
             byte_of_Z (0x80 + (c / 64) mod 64);
             byte_of_Z (0x80 + c mod 64)]
  else if c <? 0x110000 then
    Ok [byte_of_Z (0xF0 + c / 262144);
        byte_of_Z (0x80 + (c / 4096) mod 64);
        byte_of_Z (0x80 + (c / 64) mod 64);
        byte_of_Z (0x80 + c mod 64)]
  else Raise UnicodeEncodeError.

(** [s.encode('utf-8')]: lone surrogates cannot be encoded. *)
Fixpoint utf8_encode (s : pystr) : result (list byte) :=
  match s with
  | [] => Ok []
  | c :: s' =>
      do b <- utf8_encode_cp c;
      do bs <- utf8_encode s';
      Ok (b ++ bs)
  end.

Definition is_cont (b : byte) : bool :=
  (0x80 <=? Z_of_byte b) && (Z_of_byte b <? 0xC0).

Definition cont (b : byte) : Z := Z_of_byte b - 0x80.

(** [bs.decode('utf-8')], strict: overlong forms, surrogates, values above
    U+10FFFF, stray continuation bytes and truncated sequences are errors. *)
Fixpoint utf8_decode (bs : list byte) : result pystr :=
  match bs with
  | [] => Ok []
  | b0 :: r0 =>
      let x := Z_of_byte b0 in
      if x <? 0x80 then rmap (cons x) (utf8_decode r0)
      else if x <? 0xC0 then Raise UnicodeDecodeError
      else if x <? 0xE0 then
        match r0 with
        | b1 :: r1 =>
            let c := (x - 0xC0) * 64 + cont b1 in
            if is_cont b1 && (0x80 <=? c)
            then rmap (cons c) (utf8_decode r1)
            else Raise UnicodeDecodeError
        | _ => Raise UnicodeDecodeError
        end
      else if x <? 0xF0 then
        match r0 with
        | b1 :: b2 :: r2 =>
            let c := (x - 0xE0) * 4096 + cont b1 * 64 + cont b2 in
            if is_cont b1 && is_cont b2 && (0x800 <=? c)
               && negb ((0xD800 <=? c) && (c <=? 0xDFFF))
            then rmap (cons c) (utf8_decode r2)
            else Raise UnicodeDecodeError
        | _ => Raise UnicodeDecodeError
        end
      else if x <? 0xF8 then
        match r0 with
        | b1 :: b2 :: b3 :: r3 =>
            let c := (x - 0xF0) * 262144 + cont b1 * 4096
                     + cont b2 * 64 + cont b3 in
            if is_cont b1 && is_cont b2 && is_cont b3
               && (0x10000 <=? c) && (c <? 0x110000)
            then rmap (cons c) (utf8_decode r3)
            else Raise UnicodeDecodeError
        | _ => Raise UnicodeDecodeError
        end
      else Raise UnicodeDecodeError
  end.

(** ** str methods used by the tool *)

(** [s.startswith('.')]. *)
Definition startswith_dot (s : pystr) : bool :=
  match s with
  | c :: _ => c =? 46
  | [] => false
  end.

(** [s.replace('\\', '/')]. *)
Definition replace_backslash (s : pystr) : pystr :=
  map (fun c => if c =? 92 then 47 else c) s.

(** [s.rfind(chr(c))]: the highest index holding [c], or [-1]. *)
Fixpoint rfind (c : Z) (s : pystr) : Z :=
  match s with
  | [] => -1
  | x :: s' =>
      let r := rfind c s' in
      if 0 <=? r then 1 + r
      else if x =? c then 0 else -1
  end.

(** [s < t] on [str], and on any sequence whose items are strictly ordered:
    the first differing position decides, a proper prefix is smaller. *)
Fixpoint lex_ltb {A} (ltb : A -> A -> bool) (a b : list A) : bool :=
  match a, b with
  | _, [] => false
  | [], _ :: _ => true
  | x :: a', y :: b' =>
      if ltb x y then true
      else if ltb y x then false
      else lex_ltb ltb a' b'
  end.

Definition str_ltb : pystr -> pystr -> bool := lex_ltb Z.ltb.

(** ** pathlib *)

(** A path below the source directory, as its components
    ([rel_path.parts]); every path the tool handles is [base / rel].  Paths
    are POSIX paths: components are compared as they are, and a backslash
    is an ordinary character of a name. *)
Abbreviation path := (list pystr).

(** [p < q] on paths compares the component lists (pathlib's [__lt__]);
    the common [base] prefix does not matter. *)
Definition path_ltb : path -> path -> bool := lex_ltb str_ltb.

(** [p.name]: the final component. *)
Definition path_name (p : path) : pystr := List.last p [].

(** [p.suffix]: the final component from its last dot on, unless that dot
    is its first or last character. *)
Definition path_suffix (p : path) : pystr :=
  let name := path_name p in
  let i := rfind 46 name in
  if (0 <? i) && (i <? len name - 1) then skipn (Z.to_nat i) name else [].

(** [str(p)]: the components joined by [/]. *)
Fixpoint path_str (p : path) : pystr :=
  match p with
  | [] => [46]
  | [c] => c
  | c :: p' => c ++ 47 :: path_str p'
  end.

(** ** The source tree

    The tree is what the tool can observe of the file system: [is_file()],
    [is_dir()], [read_bytes()] and the directory listing.  [Special] stands
    for whatever is neither a file nor a directory (a dangling symbolic
    link, a socket, a device).  The listing order of [children] is the
    order in which the operating system returns the entries. *)
#[warnings="-register-all"]
Inductive node : Type :=
| File (st_mode : Z) (data : list byte)
| Dir (st_mode : Z) (children : list (pystr * node))
| Special (st_mode : Z).

Abbreviation item := (path * node)%type.

Definition is_file (it : item) : bool :=
  match snd it with File _ _ => true | _ => false end.

Definition is_dir (it : item) : bool :=
  match snd it with Dir _ _ => true | _ => false end.

(** [base.rglob('*')] below the directory at [prefix]: every descendant,
    hidden ones included. *)
Fixpoint rglob (prefix : path) (n : node) : list item :=
  match n with
  | Dir _ cs =>
      flat_map (fun c => (prefix ++ [fst c], snd c)
                         :: rglob (prefix ++ [fst c]) (snd c)) cs
  | _ => []
  end.

(** [sorted(...)] of paths: a stable sort that only uses [<]. *)
Fixpoint insert_sorted (x : item) (l : list item) : list item :=
  match l with
  | [] => [x]
  | y :: l' =>
      if path_ltb (fst y) (fst x) then y :: insert_sorted x l' else x :: l
  end.

Definition sorted (l : list item) : list item :=
  fold_right insert_sorted [] l.

Definition str_in (s : pystr) (l : list string) : bool :=
  bool_decide (s ∈ map pystr_of l).

(** ** pack_file (lines 35-90)

    [it] is the path [base / fst it] together with what the file system holds
    there.  Paths produced by [rglob] are always below [base], so the
    [ValueError] branch of lines 47-51 is never taken. *)

(** Lines 73-90: the 32-byte header, the name padded to 4 bytes and the
    data padded to a block. *)
Definition pack_entry (name_bytes data : list byte) (file_type mode : Z)
  : result (list byte) :=
  do header <- struct_pack [FILE_MAGIC; len name_bytes; len data;
                            file_type; mode; 0; 0; 0];
  let name_aligned :=
    name_bytes ++ zeros (align_to (len name_bytes) 4 - len name_bytes) in
  let data_aligned :=
    data ++ zeros (align_to (len data) BLOCK_SIZE - len data) in
  Ok (header ++ name_aligned ++ data_aligned).

Definition pack_file (it : item) : result (list byte) :=
  let rel_path := fst it in
  if startswith_dot (path_name rel_path)
     || str_in (path_name rel_path) ["Cargo.lock"; "Cargo.toml"]%string
  then Ok []
  else
    let name_str := replace_backslash (path_str rel_path) in
    do name_bytes <- utf8_encode name_str;
    match snd it with
    | File _ data => pack_entry name_bytes data FILE_TYPE_FILE 420 (* 0o644 *)
    | Dir _ _ => pack_entry name_bytes [] FILE_TYPE_DIR 493 (* 0o755 *)
    | Special _ => Ok []
    end.

(** ** collect_files (lines 93-123)

    [listing1] and [listing2] are what the two [rglob] calls yield. *)
Definition collect_from (listing1 listing2 : list item) : list item :=
  List.filter is_dir (sorted listing1)
  ++ List.filter
       (fun it =>
          is_file it
          && negb (str_in (path_suffix (fst it))
                     [".d"; ".o"; ".a"; ".rlib"]%string)
          && negb (str_in (path_name (fst it))
                     ["Cargo.lock"; ".gitignore"]%string))
       (sorted listing2).

(** [None] is a source directory that does not exist. *)
Definition collect_files (src_dir : option node) : list item :=
  match src_dir with
  | None => []
  | Some root => collect_from (rglob [] root) (rglob [] root)
  end.

(** ** make_simple_fs (lines 126-185)

    The result is [(len(packed_files), total_size)] together with the bytes
    left in the output file.  The [verbose] printing is left out. *)

(** The loop of lines 154-158. *)
Fixpoint pack_all (files : list item) : result (list (list byte)) :=
  match files with
  | [] => Ok []
  | it :: files' =>
      do packed <- pack_file it;
      do rest <- pack_all files';
      Ok (match packed with [] => rest | _ => packed :: rest end)
  end.

(** Lines 169-183, given the entries to write. *)
Definition write_image (packed_files : list (list byte))
  : result (Z * Z * list byte) :=
  do counts <- struct_pack [len packed_files; 0];
  let header := MAGIC ++ counts in
  let header := header ++ zeros (16 - len header) in
  let written := header ++ concat packed_files in
  let current_size := len written in
  let aligned_size := align_to current_size BLOCK_SIZE in
  let padding := aligned_size - current_size in
  let image := if 0 <? padding then written ++ zeros padding else written in
  Ok (len packed_files, len image, image).

Definition make_simple_fs_from (files : list item)
  : result (Z * Z * list byte) :=
  do packed_files <- pack_all files;
  write_image packed_files.

Definition make_simple_fs (src_dir : option node)
  : result (Z * Z * list byte) :=
  match src_dir with
  | None =>
      do counts <- struct_pack [0; 0];
      let header := MAGIC ++ counts in
      let header := header ++ zeros (16 - len header) in
      Ok (0, len header, header)
  | Some _ => make_simple_fs_from (collect_files src_dir)
  end.

(** ** inspect_simple_fs (lines 188-227) *)

(** The open image file: its bytes and the current position. *)
Record reader : Type := { content : list byte; pos : Z }.

(** [f.read(n)]: at most [n] bytes, fewer at the end of the file. *)
Definition f_read (n : Z) (f : reader) : list byte * reader :=
  let bs := firstn (Z.to_nat n) (skipn (Z.to_nat (pos f)) (content f)) in
  (bs, {| content := content f; pos := pos f + len bs |}).

(** [f.seek(n, 1)]. *)
Definition f_seek_cur (n : Z) (f : reader) : reader :=
  {| content := content f; pos := pos f + n |}.

(** What is printed, one constructor per group of [print] calls. *)
Inductive line : Type :=
| InvalidMagic (magic : list byte)            (* line 199 *)
| ImageInfo (file_count : Z)                  (* lines 205-207 *)
| InvalidFileMagic (i : Z)                    (* line 215 *)
| EntryInfo (type_str : string) (name : pystr) (data_len mode : Z).
                                              (* lines 225-227 *)

(** The loop of lines 210-227 with [n] iterations left, the next index
    being [i]. *)
Fixpoint inspect_entries (n : nat) (i : Z) (f : reader)
  : list line * result unit :=
  match n with
  | O => ([], Ok tt)
  | S n' =>
      let '(header, f) := f_read 32 f in
      match struct_unpack 5 (firstn 20 header) with
      | Raise e => ([], Raise e)
      | Ok fields =>
          let magic := nth 0 fields 0 in
          let name_len := nth 1 fields 0 in
          let data_len := nth 2 fields 0 in
          let file_type := nth 3 fields 0 in
          let mode := nth 4 fields 0 in
          if negb (magic =? FILE_MAGIC) then ([InvalidFileMagic i], Ok tt)
          else
            let name_aligned := align_to name_len 4 in
            let data_aligned := align_to data_len BLOCK_SIZE in
            let '(raw, f) := f_read name_aligned f in
            match utf8_decode (firstn (Z.to_nat name_len) raw) with
            | Raise e => ([], Raise e)
            | Ok name =>
                let f := f_seek_cur data_aligned f in
                let type_str :=
                  if file_type =? FILE_TYPE_FILE
                  then "FILE"%string else "DIR "%string in
                let '(out, r) := inspect_entries n' (i + 1) f in
                (EntryInfo type_str name data_len mode :: out, r)
            end
      end
  end.

#[global] Instance byte_eq_dec : EqDecision byte := Byte.byte_eq_dec.

Definition inspect_simple_fs (img : list byte) : list line * result unit :=
  let f := {| content := img; pos := 0 |} in
  let '(magic, f) := f_read 8 f in
  if negb (bool_decide (magic = MAGIC)) then ([InvalidMagic magic], Ok tt)
  else
    let '(raw, f) := f_read 4 f in
    match struct_unpack 1 raw with
    | Raise e => ([], Raise e)
    | Ok fields =>
        let file_count := nth 0 fields 0 in
        let '(_, f) := f_read 4 f in
        let '(out, r) := inspect_entries (Z.to_nat file_count) 0 f in
        (ImageInfo file_count :: out, r)
    end.

(** ** The example tree of the specification: [bin/] and [bin/hello.txt] *)

Definition hello : list byte := [x68; x65; x6c; x6c; x6f].

Definition example_tree : node :=
  Dir 493 [(pystr_of "bin",
              Dir 493 [(pystr_of "hello.txt", File 420 hello)])].

(** ** Auxiliary notions for the statements *)

(** The range of an [I] field. *)
Definition uint32 (v : Z) : Prop := 0 <= v < 2 ^ 32.

#[global] Instance uint32_dec v : Decision (uint32 v).
Proof. unfold uint32. apply _. Defined.

(** A scalar value: a code point that is not a surrogate. *)
Definition scalar (c : Z) : Prop :=
  0 <= c < 0xD800 \/ 0xE000 <= c < 0x110000.

(** What is left to read. *)
Definition rest (f : reader) : list byte :=
  skipn (Z.to_nat (pos f)) (content f).

(** The reader [n] bytes further on. *)
Definition advance (n : Z) (f : reader) : reader :=
  {| content := content f; pos := pos f + n |}.

(** An entry as an image stores it: the encoded name, the data, and the
    two fields the format does not interpret further. *)
Record entry : Type :=
  { e_name : list byte; e_data : list byte; e_type : Z; e_mode : Z }.

Fixpoint rmapM {A B} (f : A -> result B) (l : list A) : result (list B) :=
  match l with
  | [] => Ok []
  | x :: l' =>
      do y <- f x;
      do ys <- rmapM f l';
      Ok (y :: ys)
  end.

Definition entry_block (e : entry) : result (list byte) :=
  pack_entry (e_name e) (e_data e) (e_type e) (e_mode e).

(** The image the packer's writer leaves for the entries [es]. *)
Definition image_of (es : list entry) : result (Z * Z * list byte) :=
  do blocks <- rmapM entry_block es;
  write_image blocks.

(** What the inspector is expected to print for an entry. *)
Definition entry_line (e : entry) : result line :=
  do name <- utf8_decode (e_name e);
  Ok (EntryInfo (if e_type e =? FILE_TYPE_FILE then "FILE" else "DIR ")
                name (len (e_data e)) (e_mode e)).

(** The names [pack_file] skips at line 54. *)
Definition skipped_name (it : item) : bool :=
  startswith_dot (path_name (fst it))
  || str_in (path_name (fst it)) ["Cargo.lock"; "Cargo.toml"]%string.

(** The items for which [pack_file] returns an entry instead of [b""]. *)
Definition emitted (it : item) : bool :=
  negb (skipped_name it) && (is_file it || is_dir it).

(** The items of the source directory that end up in the image, in stream
    order. *)
Definition packed_items (src_dir : option node) : list item :=
  List.filter emitted (collect_files src_dir).

Definition item_data (it : item) : list byte :=
  match snd it with File _ data => data | _ => [] end.

(** The entry stored for an item. *)
Definition entry_of (it : item) : result entry :=
  do name_bytes <- utf8_encode (replace_backslash (path_str (fst it)));
  Ok {| e_name := name_bytes;
        e_data := item_data it;
        e_type := if is_file it then FILE_TYPE_FILE else FILE_TYPE_DIR;
        e_mode := if is_file it then 420 else 493 |}.

(** The listing line of an item: kind, name, data length and mode. *)
Definition item_line (it : item) : line :=
  EntryInfo (if is_file it then "FILE" else "DIR ")
            (replace_backslash (path_str (fst it)))
            (len (item_data it))
            (if is_file it then 420 else 493).

(** [x <= y] on items: [y] does not sort before [x]. *)
Definition item_le (x y : item) : Prop := path_ltb (fst y) (fst x) = false.

(** In a directory no two entries bear the same name. *)
Fixpoint wf_node (n : node) : bool :=
  match n with
  | Dir _ cs =>
      bool_decide (NoDup (map fst cs)) && forallb (fun c => wf_node (snd c)) cs
  | _ => true
  end.

(** The descendants of a directory with the entries [cs]. *)
Definition rglob_children (prefix : path) (cs : list (pystr * node))
  : list item :=
  flat_map (fun c => (prefix ++ [fst c], snd c)
                     :: rglob (prefix ++ [fst c]) (snd c)) cs.

(** Induction on trees, with the hypothesis for every entry of a directory. *)
Fixpoint node_ind' (P : node -> Prop)
  (HF : forall m d, P (File m d))
  (HD : forall m cs, Forall (fun c => P (snd c)) cs -> P (Dir m cs))
  (HS : forall m, P (Special m)) (n : node) : P n :=
  match n with
  | File m d => HF m d
  | Dir m cs =>
      HD m cs
        ((fix go (cs : list (pystr * node)) : Forall (fun c => P (snd c)) cs :=
            match cs return Forall (fun c => P (snd c)) cs with
            | [] => Forall_nil_2 _
            | c :: cs' => Forall_cons_2 _ _ _ (node_ind' P HF HD HS (snd c)) (go cs')
            end) cs)
  | Special m => HS m
  end.

(** The two items of the example tree. *)
Definition bin_item : item :=
  ([pystr_of "bin"], Dir 493 [(pystr_of "hello.txt", File 420 hello)]).

Definition hello_item : item :=
  ([pystr_of "bin"; pystr_of "hello.txt"], File 420 hello).

(** The bytes [pack_file] returns for [bin/hello.txt]. *)
Definition hello_block : list byte :=
  Eval vm_compute in
    match pack_file hello_item with Ok block => block | Raise _ => [] end.

(** An entry whose kind is neither of the two defined values, and the image
    holding a directory entry followed by it. *)
Definition odd_entry : entry :=
  {| e_name := [x61]; e_data := [x62]; e_type := 7; e_mode := 420 |}.

Definition bin_entry : entry :=
  {| e_name := [x62; x69; x6e]; e_data := []; e_type := FILE_TYPE_DIR;
     e_mode := 493 |}.

Definition odd_image : list byte :=
  Eval vm_compute in
    match image_of [bin_entry; odd_entry] with
    | Ok (_, _, img) => img
    | Raise _ => []
    end.

(** The offset of the header of entry [i] in an image made of [blocks]. *)
Definition entry_offset (blocks : list (list byte)) (i : nat) : nat :=
  16 + length (concat (firstn i blocks)).

(** The entry magic as it lies in the image. *)
Definition magic4 : list byte := [x45; x4c; x49; x46].

Definition odd_blocks : list (list byte) :=
  Eval vm_compute in
    match rmapM entry_block [bin_entry; odd_entry] with
    | Ok blocks => blocks
    | Raise _ => []
    end.

Definition odd_lines : list line :=
  [EntryInfo "DIR " [98; 105; 110] 0 493; EntryInfo "DIR " [97] 1 420].

(** The example tree as a traversal in the opposite order would list it. *)
Definition example_listing_rev : list item := rev (rglob [] example_tree).

(** The image written for the example tree. *)
Definition example_image : list byte :=
  Eval vm_compute in
    match make_simple_fs (Some example_tree) with
    | Ok (_, _, img) => img
    | Raise _ => []
    end.

(** The extensions [collect_files] leaves out (line 117). *)
Definition artifact_exts : list string := [".d"; ".o"; ".a"; ".rlib"]%string.

(** A file name that ends with one of these extensions. *)
Definition artifact_name (name : pystr) : Prop :=
  exists ext, In ext artifact_exts /\ pystr_of ext `suffix_of` name.

(** A tree with hidden entries at two levels and build artifacts. *)
Definition cluttered_tree : node :=
  Dir 493
    [(pystr_of ".git", Dir 493 [(pystr_of "config", File 420 hello)]);
     (pystr_of "main.o", File 420 hello);
     (pystr_of "src",
      Dir 493 [(pystr_of ".hidden", File 420 hello);
               (pystr_of "lib.rlib", File 420 hello);
               (pystr_of "main.rs", File 420 hello)])].

Definition cluttered_image : list byte :=
  Eval vm_compute in
    match make_simple_fs (Some cluttered_tree) with
    | Ok (_, _, img) => img
    | Raise _ => []
    end.

(** Two directories whose names differ where one has the separator. *)
Definition dash_tree : node :=
  Dir 493 [(pystr_of "a", Dir 493 [(pystr_of "c", Dir 493 [])]);
           (pystr_of "a-b", Dir 493 [])].

Definition dash_image : list byte :=
  Eval vm_compute in
    match make_simple_fs (Some dash_tree) with
    | Ok (_, _, img) => img
    | Raise _ => []
    end.

(** The names of the entries in a listing. *)
Definition line_names (lines : list line) : list pystr :=
  flat_map (fun ln => match ln with
                      | EntryInfo _ name _ _ => [name]
                      | _ => []
                      end) lines.

(** The filter of [collect_files] (lines 110 and 115-120). *)
Definition collected (it : item) : bool :=
  is_dir it
  || (is_file it
      && negb (str_in (path_suffix (fst it)) artifact_exts)
      && negb (str_in (path_name (fst it)) ["Cargo.lock"; ".gitignore"]%string)).

(** The entries of the tree that no filter removes. *)
Definition non_filtered (it : item) : bool := collected it && emitted it.

(** An item [pack_file] can handle without raising: its name is skipped, or
    its path is made of scalar values and its path and data are short
    enough for the 32-bit length fields. *)
Definition packable (it : item) : Prop :=
  skipped_name it = true
  \/ (Forall scalar (path_str (fst it))
      /\ 4 * len (path_str (fst it)) < 2 ^ 32
      /\ len (item_data it) < 2 ^ 32).

(** The directory [a] with the file [b], beside a file named [a\b]. *)
Definition collision_tree : node :=
  Dir 493 [([97], Dir 493 [([98], File 420 hello)]);
           ([97; 92; 98], File 420 [x21%byte])].

(** A directory holding one file whose name contains a backslash. *)
Definition backslash_item : item := ([[97; 92; 98]], File 420 hello).

Definition backslash_tree : node := Dir 493 [([97; 92; 98], File 420 hello)].

Definition backslash_image : list byte :=
  Eval vm_compute in
    match make_simple_fs (Some backslash_tree) with
    | Ok (_, _, img) => img
    | Raise _ => []
    end.

(** A directory that holds nothing the packer keeps. *)
Definition filtered_tree : node :=
  Dir 493 [(pystr_of ".gitignore", File 420 hello);
           (pystr_of "Cargo.toml", File 420 hello);
           (pystr_of "main.o", File 420 hello)].

(** A directory with a file whose name holds a lone surrogate, as Python
    decodes a file name that is not valid UTF-8. *)
Definition surrogate_item : item := ([[97; 56448]], File 420 hello).

Definition surrogate_tree : node := Dir 493 [([97; 56448], File 420 hello)].

(** A listing line of an entry. *)
Definition is_entry_info (ln : line) : Prop :=
  match ln with EntryInfo _ _ _ _ => True | _ => False end.

(** An entry whose name is not valid UTF-8. *)
Definition latin1_entry : entry :=
  {| e_name := [xe9]; e_data := []; e_type := FILE_TYPE_FILE; e_mode := 420 |}.

Definition latin1_block : list byte :=
  Eval vm_compute in
    match entry_block latin1_entry with Ok block => block | Raise _ => [] end.

Definition bin_block : list byte :=
  Eval vm_compute in
    match entry_block bin_entry with Ok block => block | Raise _ => [] end.

(** The bytes an entry takes in an image, and where entry [i] starts. *)
Definition entry_size (e : entry) : Z :=
  32 + align_to (len (e_name e)) 4 + align_to (len (e_data e)) BLOCK_SIZE.

Definition entry_start (es : list entry) (i : nat) : Z :=
  16 + fold_right Z.add 0 (map entry_size (firstn i es)).

(** [bs[start : start + count]]. *)
Definition slice (bs : list byte) (start count : Z) : list byte :=
  firstn (Z.to_nat count) (skipn (Z.to_nat start) bs).

(** A tree with a manifest directory, a lock file and a dangling link. *)
Definition manifest_tree : node :=
  Dir 493 [(pystr_of "Cargo.toml", Dir 493 [(pystr_of "x", File 420 hello)]);
           (pystr_of "Cargo.lock", File 420 hello);
           (pystr_of "link", Special 511);
           (pystr_of "conf.d", Dir 493 [])].

Definition manifest_image : list byte :=
  Eval vm_compute in
    match make_simple_fs (Some manifest_tree) with
    | Ok (_, _, img) => img
    | Raise _ => []
    end.

(** ** main (lines 230-279)

    The parsed command line together with what the file system holds at the
    paths it names: [cli_src_dir] and [cli_output] are the two positional
    arguments ([None] and [false] when left out; the inner [None] of
    [cli_src_dir] is a directory that does not exist), [cli_inspect] is the
    [--inspect] option with the bytes of the image file, [None] inside when
    the file does not exist.  This is [main] run without [--verbose]; the
    flag only adds printing. *)
Record cli : Type :=
  { cli_src_dir : option (option node);
    cli_output : bool;
    cli_inspect : option (option (list byte)) }.

(** What [main] and the functions it calls print. *)
Inductive message : Type :=
| Listing (ln : line)                         (* inspect_simple_fs *)
| ImageMissing                                (* line 261 *)
| SourceMissing                               (* make_simple_fs, line 139 *)
| HelpText                                    (* line 268 *)
| Created (file_count total_size kb : Z)      (* line 273 *)
| ErrorTrace (e : exn).                       (* lines 276-278 *)

(** What [make_simple_fs] prints when [verbose] is off: the warning of
    line 139 when the source directory does not exist, before anything is
    written, and nothing for a directory that exists. *)
Definition make_simple_fs_output (src_dir : option node) : list message :=
  match src_dir with
  | None => [SourceMissing]
  | Some _ => []
  end.

(** The result is what is printed, the exit code [main] returns (or the
    exception that escapes it), and the bytes written to the output path,
    if any. *)
Definition main (args : cli) : list message * result Z * option (list byte) :=
  match cli_inspect args with
  | Some image =>
      match image with
      | None => ([ImageMissing], Ok 1, None)
      | Some img =>
          let '(out, r) := inspect_simple_fs img in
          (map Listing out, do _ <- r; Ok 0, None)
      end
  | None =>
      match cli_src_dir args, cli_output args with
      | Some src_dir, true =>
          match make_simple_fs src_dir with
          | Ok (file_count, total_size, img) =>
              (make_simple_fs_output src_dir
               ++ [Created file_count total_size (total_size / 1024)],
               Ok 0, Some img)
          | Raise e =>
              (make_simple_fs_output src_dir ++ [ErrorTrace e], Ok 1, None)
          end
      | _, _ => ([HelpText], Ok 1, None)
      end
  end.

(** * rewrite_links.py

    The link rewriting of the documentation script.  A raised [ValueError]
    is the [None] of [option]. *)

Definition GITHUB_REPO : pystr :=
  pystr_of "https://github.com/comix-kernel/comix".
Definition GITHUB_BRANCH : pystr := pystr_of "main".

(** [s.rsplit(":", 1)] when [":" in s]: what lies before and after the last
    colon; [None] when [s] has no colon. *)
Fixpoint rsplit_colon (s : pystr) : option (pystr * pystr) :=
  match s with
  | [] => None
  | c :: s' =>
      match rsplit_colon s' with
      | Some (before, after) => Some (c :: before, after)
      | None => if c =? 58 then Some ([], s') else None
      end
  end.

(** [s.split("-")]. *)
Fixpoint split_dash (s : pystr) : list pystr :=
  match s with
  | [] => [[]]
  | c :: s' =>
      match split_dash s' with
      | part :: parts =>
          if c =? 45 then [] :: part :: parts else (c :: part) :: parts
      | [] => [[c]]
      end
  end.

(** convert_link (lines 24-45), given the two groups of the match. *)
Definition convert_link (text path : pystr) : option pystr :=
  let split :=
    match rsplit_colon path with
    | Some (file_path, line_spec) =>
        if existsb (Z.eqb 45) line_spec
        then match split_dash line_spec with
             | [start_line; end_line] =>
                 Some (file_path,
                       pystr_of "#L" ++ start_line ++ pystr_of "-L" ++ end_line)
             | _ => None
             end
        else Some (file_path, pystr_of "#L" ++ line_spec)
    | None => Some (path, [])
    end in
  match split with
  | Some (file_path, line_anchor) =>
      let github_url :=
        GITHUB_REPO ++ pystr_of "/blob/" ++ GITHUB_BRANCH
        ++ pystr_of "/os/src/" ++ file_path ++ line_anchor in
      Some (pystr_of "[" ++ text ++ pystr_of "](" ++ github_url ++ pystr_of ")")
  | None => None
  end.

(** The longest run of characters other than [stop] at the head of [s], and
    what follows it: a greedy [[^stop]*]. *)
Fixpoint span_until (stop : Z) (s : pystr) : pystr * pystr :=
  match s with
  | [] => ([], [])
  | c :: s' =>
      if c =? stop then ([], s)
      else let '(run, after) := span_until stop s' in (c :: run, after)
  end.

Fixpoint strip_prefix (p s : pystr) : option pystr :=
  match p, s with
  | [], _ => Some s
  | x :: p', y :: s' => if x =? y then strip_prefix p' s' else None
  | _ :: _, [] => None
  end.

(** A match of LINK_PATTERN (line 21) at the head of [s]: the two groups
    and what follows the match.  The text group is a greedy run of
    characters other than [']'] and must be followed by [](/os/src/]; since
    the run cannot hold a [']'], giving characters back never helps, and the
    same holds for the path group and [')']. *)
Definition match_link (s : pystr) : option (pystr * pystr * pystr) :=
  match s with
  | c :: s1 =>
      if c =? 91 then
        let '(text, s2) := span_until 93 s1 in
        match text, strip_prefix (pystr_of "](/os/src/") s2 with
        | _ :: _, Some s3 =>
            let '(path, s4) := span_until 41 s3 in
            match path, s4 with
            | _ :: _, d :: s5 => if d =? 41 then Some (text, path, s5) else None
            | _, _ => None
            end
        | _, _ => None
        end
      else None
  | [] => None
  end.

(** [re.sub(LINK_PATTERN, convert_link, s)]: the leftmost matches, one
    after the other; [fuel] bounds the number of steps, each of which
    consumes at least one character. *)
Fixpoint sub_links (fuel : nat) (s : pystr) : option pystr :=
  match fuel, s with
  | _, [] => Some []
  | O, _ :: _ => Some s
  | S fuel', c :: s' =>
      match match_link s with
      | Some (text, path, after) =>
          match convert_link text path with
          | Some link => option_map (app link) (sub_links fuel' after)
          | None => None
          end
      | None => option_map (cons c) (sub_links fuel' s')
      end
  end.

Definition re_sub (s : pystr) : option pystr := sub_links (length s) s.

(** [len(re.findall(LINK_PATTERN, s))]. *)
Fixpoint count_links (fuel : nat) (s : pystr) : Z :=
  match fuel, s with
  | _, [] => 0
  | O, _ :: _ => 0
  | S fuel', c :: s' =>
      match match_link s with
      | Some (_, _, after) => 1 + count_links fuel' after
      | None => count_links fuel' s'
      end
  end.

Definition findall_count (s : pystr) : Z := count_links (length s) s.

(** process_file (lines 48-65) on the content of the file: the returned
    pair and the content written back, if any. *)
Definition process_file (content : pystr)
  : option (Z * bool * option pystr) :=
  let original_count := findall_count content in
  match re_sub content with
  | Some new_content =>
      if bool_decide (content <> new_content)
      then Some (original_count, true, Some new_content)
      else Some (0, false, None)
  | None => None
  end.

(** A page with a plain link, a link with a line, and one with a range. *)
Definition sample_page : pystr :=
  pystr_of "See [a](/os/src/mm/a.rs), [b](/os/src/b.rs:12) and [c](/os/src/c.rs:3-9).".

(** The link [convert_link] builds for the text [text] and what follows
    [/os/src/] in the URL. *)
Definition github_link (text tail : pystr) : pystr :=
  pystr_of "[" ++ text
  ++ pystr_of "](https://github.com/comix-kernel/comix/blob/main/os/src/"
  ++ tail ++ pystr_of ")".

(** The source form of a link. *)
Definition source_link (text path : pystr) : pystr :=
  pystr_of "[" ++ text ++ pystr_of "](/os/src/" ++ path ++ pystr_of ")".

(** The loop of [main] of rewrite_links.py (lines 79-90) over the contents
    of the Markdown files, in the order [rglob] yields them: the contents
    of the files afterwards, and the two totals of the summary, or [None]
    when [process_file] raised; the file it raised on and the files after
    it are left as they were. *)
Fixpoint main_loop (files : list pystr) (total_links modified_files : Z)
  : list pystr * option (Z * Z) :=
  match files with
  | [] => ([], Some (total_links, modified_files))
  | content :: rest =>
      match process_file content with
      | Some (link_count, was_modified, written) =>
          let content' :=
            match written with Some new_content => new_content | None => content end in
          let '(rest', summary) :=
            if was_modified
            then main_loop rest (total_links + link_count) (modified_files + 1)
            else main_loop rest total_links modified_files in
          (content' :: rest', summary)
      | None => (files, None)
      end
  end.

(** A page without links, for the examples. *)
Definition plain_page : pystr := pystr_of "No [links] (here).".

(** ** Proof automation *)

Ltac bool_hyps :=
  repeat match goal with
  | H : (_ <? _) = true |- _ => apply Z.ltb_lt in H
  | H : (_ <? _) = false |- _ => apply Z.ltb_ge in H
  | H : (_ <=? _) = true |- _ => apply Z.leb_le in H
  | H : (_ <=? _) = false |- _ => apply Z.leb_gt in H
  | H : (_ =? _) = true |- _ => apply Z.eqb_eq in H
  | H : (_ =? _) = false |- _ => apply Z.eqb_neq in H
  | H : _ && _ = true |- _ => apply andb_true_iff in H; destruct H
  | H : _ && _ = false |- _ => apply andb_false_iff in H
  | H : _ || _ = true |- _ => apply orb_true_iff in H
  | H : _ || _ = false |- _ => apply orb_false_iff in H; destruct H
  | H : negb _ = true |- _ => apply negb_true_iff in H
  | H : negb _ = false |- _ => apply negb_false_iff in H
  end.

Ltac divmod_lia := Z.to_euclidean_division_equations; lia.

(** * Properties *)

Lemma Ok_inj {A} (a b : A) : Ok a = Ok b -> a = b.
Proof. congruence. Qed.

(** ** Bytes and lengths *)

Lemma Z_of_byte_range b : 0 <= Z_of_byte b < 256.
Proof.
  unfold Z_of_byte. pose proof (Byte.to_N_bounded b). lia.
Qed.

Lemma Z_of_byte_of_Z z : 0 <= z < 256 -> Z_of_byte (byte_of_Z z) = z.
Proof.
  intros Hz. unfold Z_of_byte, byte_of_Z.
  rewrite Z.mod_small by lia.
  destruct (Byte.of_N (Z.to_N z)) as [b|] eqn:E.
  - apply Byte.to_of_N in E. lia.
  - apply Byte.of_N_None_iff in E. lia.
Qed.

Lemma byte_of_Z_of_byte b : byte_of_Z (Z_of_byte b) = b.
Proof.
  unfold byte_of_Z. pose proof (Z_of_byte_range b) as Hb.
  rewrite Z.mod_small by lia. unfold Z_of_byte.
  rewrite N2Z.id, Byte.of_to_N. reflexivity.
Qed.

Lemma Z_of_byte_inj a b : Z_of_byte a = Z_of_byte b -> a = b.
Proof.
  intros H. rewrite <- (byte_of_Z_of_byte a), <- (byte_of_Z_of_byte b).
  now rewrite H.
Qed.

Lemma len_nonneg {A} (l : list A) : 0 <= len l.
Proof. unfold len. lia. Qed.

Lemma len_app {A} (l1 l2 : list A) : len (l1 ++ l2) = len l1 + len l2.
Proof. unfold len. rewrite length_app. lia. Qed.

Lemma len_zeros n : 0 <= n -> len (zeros n) = n.
Proof. intros H. unfold len, zeros. rewrite repeat_length. lia. Qed.

Lemma len_zeros_neg n : n <= 0 -> zeros n = [].
Proof.
  intros H. unfold zeros. replace (Z.to_nat n) with O by lia. reflexivity.
Qed.

(** ** align_to *)

Lemma align_to_bounds n a :
  0 < a -> n <= align_to n a < n + a.
Proof.
  intros Ha. unfold align_to.
  pose proof (Z.div_mod (n + a - 1) a) as E.
  pose proof (Z.mod_pos_bound (n + a - 1) a Ha) as B.
  nia.
Qed.

Lemma align_to_multiple n a : 0 < a -> (align_to n a) mod a = 0.
Proof.
  intros Ha. unfold align_to. apply Z.mod_mul. lia.
Qed.

Lemma align_to_fixed n a : 0 < a -> n mod a = 0 -> align_to n a = n.
Proof.
  intros Ha Hn. unfold align_to.
  apply Z.mod_divide in Hn; [|lia]. destruct Hn as [k ->].
  replace (k * a + a - 1) with (a - 1 + k * a) by lia.
  rewrite Z.div_add by lia. rewrite Z.div_small by lia. lia.
Qed.

(** ** struct *)

Lemma le_decode_cons b bs : le_decode (b :: bs) = Z_of_byte b + 256 * le_decode bs.
Proof. reflexivity. Qed.

Lemma pack_I_ok v :
  0 <= v < 2 ^ 32 ->
  exists bs, pack_I v = Ok bs /\ length bs = 4%nat /\ le_decode bs = v.
Proof.
  intros Hv. unfold pack_I.
  replace ((0 <=? v) && (v <? 2 ^ 32)) with true
    by (symmetry; apply andb_true_iff; split; [apply Z.leb_le | apply Z.ltb_lt]; lia).
  eexists. split; [reflexivity|]. split; [reflexivity|].
  unfold le_decode, fold_right.
  unfold byte_of_Z.
  assert (Hb : forall z, Z_of_byte (byte_of_Z z) = z mod 256).
  { intros z. unfold byte_of_Z. rewrite <- (Z.mod_mod z 256) at 1 by lia.
    fold (byte_of_Z (z mod 256)). apply Z_of_byte_of_Z.
    apply Z.mod_pos_bound. lia. }
  fold (byte_of_Z v) (byte_of_Z (v / 2 ^ 8)) (byte_of_Z (v / 2 ^ 16))
       (byte_of_Z (v / 2 ^ 24)).
  rewrite !Hb.
  change (2 ^ 8) with 256. change (2 ^ 16) with 65536.
  change (2 ^ 24) with 16777216. change (2 ^ 32) with 4294967296 in Hv.
  pose proof (Z.div_mod v 256). pose proof (Z.mod_pos_bound v 256).
  pose proof (Z.div_mod (v / 256) 256). pose proof (Z.mod_pos_bound (v / 256) 256).
  pose proof (Z.div_mod (v / 65536) 256). pose proof (Z.mod_pos_bound (v / 65536) 256).
  assert (v / 65536 = v / 256 / 256) by (rewrite Z.div_div by lia; reflexivity).
  assert (v / 16777216 = v / 65536 / 256) by (rewrite Z.div_div by lia; reflexivity).
  assert (v / 16777216 < 256) by (apply Z.div_lt_upper_bound; lia).
  assert (0 <= v / 16777216) by (apply Z.div_pos; lia).
  rewrite (Z.mod_small (v / 16777216)) by lia.
  lia.
Qed.

Lemma pack_I_raises v : ~ 0 <= v < 2 ^ 32 -> pack_I v = Raise StructError.
Proof.
  intros Hv. unfold pack_I.
  destruct (0 <=? v) eqn:E1; [|reflexivity].
  destruct (v <? 2 ^ 32) eqn:E2; [|reflexivity].
  apply Z.leb_le in E1. apply Z.ltb_lt in E2. lia.
Qed.

Lemma struct_pack_ok vs :
  Forall uint32 vs ->
  exists bs, struct_pack vs = Ok bs
             /\ length bs = (4 * length vs)%nat
             /\ map le_decode (chunks4 (length vs) bs) = vs.
Proof.
  induction 1 as [|v vs Hv _ IH]; simpl.
  - exists []. auto.
  - destruct (pack_I_ok v Hv) as (b & -> & Hl & Hd).
    destruct IH as (bs & -> & Hls & Hds). simpl.
    exists (b ++ bs). split; [reflexivity|].
    split; [rewrite length_app; lia|].
    rewrite (take_app_length' b bs 4 (eq_sym Hl)), (drop_app_length' b bs 4 (eq_sym Hl)).
    now rewrite Hd, Hds.
Qed.

Lemma struct_pack_app vs1 vs2 b1 b2 :
  struct_pack vs1 = Ok b1 -> struct_pack vs2 = Ok b2 ->
  struct_pack (vs1 ++ vs2) = Ok (b1 ++ b2).
Proof.
  revert b1. induction vs1 as [|v vs1 IH]; simpl; intros b1 H1 H2.
  - now inversion H1.
  - destruct (pack_I v) as [b|]; simpl in *; [|discriminate].
    destruct (struct_pack vs1) as [bs|]; simpl in *; [|discriminate].
    inversion H1; subst. rewrite (IH bs eq_refl H2). simpl.
    now rewrite app_assoc.
Qed.

Lemma struct_pack_raises vs :
  ~ Forall uint32 vs -> struct_pack vs = Raise StructError.
Proof.
  induction vs as [|v vs IH]; intros H; simpl.
  - destruct H. constructor.
  - destruct (Z_le_dec 0 v) as [H0|H0]; [destruct (Z_lt_dec v (2 ^ 32)) as [H1|H1]|].
    + destruct (pack_I_ok v (conj H0 H1)) as (b & -> & _). simpl.
      rewrite IH; [reflexivity|]. intros HF. apply H. constructor; [split|]; auto.
    + rewrite pack_I_raises; [reflexivity | lia].
    + rewrite pack_I_raises; [reflexivity | lia].
Qed.

Lemma struct_pack_uint32 vs bs :
  struct_pack vs = Ok bs -> Forall uint32 vs.
Proof.
  intros H. destruct (decide (Forall uint32 vs)) as [HF|HF]; [exact HF|].
  rewrite struct_pack_raises in H by assumption. discriminate.
Qed.

Lemma struct_pack_length vs bs :
  struct_pack vs = Ok bs -> length bs = (4 * length vs)%nat.
Proof.
  intros H.
  destruct (struct_pack_ok vs (struct_pack_uint32 vs bs H)) as (bs' & E & Hl & _).
  congruence.
Qed.

Lemma struct_unpack_pack vs bs :
  struct_pack vs = Ok bs -> struct_unpack (length vs) bs = Ok vs.
Proof.
  intros H.
  destruct (struct_pack_ok vs (struct_pack_uint32 vs bs H)) as (bs' & E & Hl & Hd).
  rewrite H in E. inversion E; subst bs'.
  unfold struct_unpack. rewrite Hl, Nat.eqb_refl. now rewrite Hd.
Qed.

Lemma le_decode_range bs : 0 <= le_decode bs < 256 ^ Z.of_nat (length bs).
Proof.
  induction bs as [|b bs IH].
  - simpl. lia.
  - rewrite le_decode_cons. simpl length.
    rewrite Nat2Z.inj_succ, Z.pow_succ_r by lia.
    pose proof (Z_of_byte_range b). lia.
Qed.

Lemma le_decode_inj a b :
  length a = length b -> le_decode a = le_decode b -> a = b.
Proof.
  revert b. induction a as [|x a IH]; intros [|y b] Hl Hd; try discriminate.
  - reflexivity.
  - rewrite !le_decode_cons in Hd.
    pose proof (Z_of_byte_range x). pose proof (Z_of_byte_range y).
    assert (Z_of_byte x = Z_of_byte y /\ le_decode a = le_decode b) as [Hx Ha] by lia.
    f_equal; [now apply Z_of_byte_inj | apply IH; [now inversion Hl | exact Ha]].
Qed.

(** ** UTF-8 *)

Lemma utf8_encode_cp_ok c :
  scalar c ->
  exists b, utf8_encode_cp c = Ok b /\ (1 <= length b <= 4)%nat.
Proof.
  intros Hc. unfold scalar in Hc. unfold utf8_encode_cp.
  repeat match goal with
         | |- context [if ?x then _ else _] =>
             let E := fresh "E" in
             destruct x eqn:E; bool_hyps; try (exfalso; lia)
         end; eexists; (split; [reflexivity | simpl; lia]).
Qed.

Lemma utf8_encode_cp_scalar c b : utf8_encode_cp c = Ok b -> scalar c.
Proof.
  unfold utf8_encode_cp, scalar. intros H.
  repeat match type of H with
         | context [if ?x then _ else _] => destruct x eqn:?
         end; try discriminate; bool_hyps; lia.
Qed.

Lemma utf8_decode_encode_cp c b rest :
  utf8_encode_cp c = Ok b ->
  utf8_decode (b ++ rest) = rmap (cons c) (utf8_decode rest).
Proof.
  intros H. unfold utf8_encode_cp in H.
  repeat match type of H with
         | context [if ?x then _ else _] => destruct x eqn:?
         end; try discriminate; inversion H; subst b; clear H; bool_hyps.
  all: cbn [app utf8_decode]; unfold is_cont, cont;
    rewrite ?Z_of_byte_of_Z by divmod_lia.
  all: repeat match goal with
       | |- context [if ?x then _ else _] =>
           let E := fresh "E" in
           destruct x eqn:E; bool_hyps; try (exfalso; divmod_lia)
       end.
  all: try (f_equal; f_equal; divmod_lia).
Qed.

(** Decoding undoes encoding. *)
Lemma utf8_decode_encode s bs :
  utf8_encode s = Ok bs -> utf8_decode bs = Ok s.
Proof.
  revert bs. induction s as [|c s IH]; simpl; intros bs H.
  - now inversion H.
  - destruct (utf8_encode_cp c) as [b|] eqn:Ec; simpl in H; [|discriminate].
    destruct (utf8_encode s) as [bs'|]; simpl in H; [|discriminate].
    inversion H; subst bs.
    rewrite (utf8_decode_encode_cp c b bs' Ec), (IH bs' eq_refl).
    reflexivity.
Qed.

Lemma utf8_encode_ok s :
  Forall scalar s ->
  exists bs, utf8_encode s = Ok bs /\ (length bs <= 4 * length s)%nat.
Proof.
  induction 1 as [|c s Hc _ (bs & E & Hl)]; simpl.
  - exists []. split; [reflexivity | simpl; lia].
  - destruct (utf8_encode_cp_ok c Hc) as (b & -> & Hb). rewrite E. simpl.
    eexists. split; [reflexivity|]. rewrite length_app. lia.
Qed.

Lemma utf8_encode_raises s :
  ~ Forall scalar s -> utf8_encode s = Raise UnicodeEncodeError.
Proof.
  induction s as [|c s IH]; intros H; simpl.
  - destruct H. constructor.
  - destruct (utf8_encode_cp c) as [b|e] eqn:Ec; simpl.
    + rewrite IH; [reflexivity|]. intros HF. apply H. constructor; [|exact HF].
      eapply utf8_encode_cp_scalar; eauto.
    + unfold utf8_encode_cp in Ec.
      repeat match type of Ec with
             | context [if ?x then _ else _] => destruct x
             end; congruence.
Qed.

(** ** The reader *)

Lemma rest_advance f bs tl :
  0 <= pos f -> rest f = bs ++ tl -> rest (advance (len bs) f) = tl.
Proof.
  unfold rest, advance, len. simpl. intros Hp H.
  replace (Z.to_nat (pos f + Z.of_nat (length bs)))
    with (Z.to_nat (pos f) + length bs)%nat by lia.
  rewrite <- drop_drop, H. apply drop_app_length.
Qed.

Lemma pos_advance n f : pos (advance n f) = pos f + n.
Proof. reflexivity. Qed.

Lemma content_advance n f : content (advance n f) = content f.
Proof. reflexivity. Qed.

Lemma f_read_rest n f bs tl :
  rest f = bs ++ tl -> len bs = n ->
  f_read n f = (bs, advance n f).
Proof.
  intros H Hn. unfold f_read. fold (rest f). rewrite H.
  assert (E : firstn (Z.to_nat n) (bs ++ tl) = bs).
  { apply take_app_length'. unfold len in Hn. lia. }
  rewrite E. unfold advance. now rewrite Hn.
Qed.

Lemma f_seek_cur_advance n f : f_seek_cur n f = advance n f.
Proof. reflexivity. Qed.

Lemma advance_advance n m f : advance m (advance n f) = advance (n + m) f.
Proof. unfold advance. simpl. f_equal. lia. Qed.

(** ** pack_entry *)

Lemma struct_pack_app_inv vs1 vs2 bs :
  struct_pack (vs1 ++ vs2) = Ok bs ->
  exists b1 b2, struct_pack vs1 = Ok b1 /\ struct_pack vs2 = Ok b2
                /\ bs = b1 ++ b2.
Proof.
  revert bs. induction vs1 as [|v vs1 IH]; simpl; intros bs H.
  - exists [], bs. auto.
  - destruct (pack_I v) as [b|]; simpl in *; [|discriminate].
    destruct (struct_pack (vs1 ++ vs2)) as [bs'|]; simpl in *; [|discriminate].
    destruct (IH bs' eq_refl) as (b1 & b2 & -> & -> & ->). simpl.
    inversion H. exists (b ++ b1), b2. now rewrite app_assoc.
Qed.

(** The layout of a packed entry: five fields, twelve zero bytes, the padded
    name and the padded data. *)
Lemma pack_entry_inv nb data ft mode block :
  pack_entry nb data ft mode = Ok block ->
  exists fields,
    struct_pack [FILE_MAGIC; len nb; len data; ft; mode] = Ok fields
    /\ length fields = 20%nat
    /\ block = fields ++ zeros 12
               ++ (nb ++ zeros (align_to (len nb) 4 - len nb))
               ++ (data ++ zeros (align_to (len data) BLOCK_SIZE - len data)).
Proof.
  unfold pack_entry. intros H.
  destruct (struct_pack [FILE_MAGIC; len nb; len data; ft; mode; 0; 0; 0])
    as [header|] eqn:E; simpl in H; [|discriminate].
  inversion H; subst block; clear H.
  destruct (struct_pack_app_inv [FILE_MAGIC; len nb; len data; ft; mode]
              [0; 0; 0] header E) as (b1 & b2 & E1 & E2 & ->).
  exists b1. split; [exact E1|]. split.
  - apply struct_pack_length in E1. exact E1.
  - vm_compute in E2. inversion E2; subst b2. now rewrite <- app_assoc.
Qed.

Lemma pack_entry_ok nb data ft mode :
  uint32 (len nb) -> uint32 (len data) -> uint32 ft -> uint32 mode ->
  exists block, pack_entry nb data ft mode = Ok block.
Proof.
  intros H1 H2 H3 H4. unfold pack_entry.
  destruct (struct_pack_ok [FILE_MAGIC; len nb; len data; ft; mode; 0; 0; 0])
    as (h & -> & _).
  - repeat (apply Forall_cons; split); try apply Forall_nil;
      try assumption; unfold uint32, FILE_MAGIC; lia.
  - simpl. eauto.
Qed.

Lemma pack_entry_uint32 nb data ft mode block :
  pack_entry nb data ft mode = Ok block ->
  uint32 (len nb) /\ uint32 (len data) /\ uint32 ft /\ uint32 mode.
Proof.
  intros H. destruct (pack_entry_inv _ _ _ _ _ H) as (fields & E & _).
  apply struct_pack_uint32 in E.
  repeat match goal with H : Forall _ (_ :: _) |- _ => inversion H; clear H; subst end.
  auto.
Qed.

(** The number of bytes an entry occupies. *)
Lemma pack_entry_len nb data ft mode block :
  pack_entry nb data ft mode = Ok block ->
  len block = 32 + align_to (len nb) 4 + align_to (len data) BLOCK_SIZE.
Proof.
  intros H. destruct (pack_entry_inv _ _ _ _ _ H) as (fields & _ & Hl & ->).
  pose proof (align_to_bounds (len nb) 4 ltac:(lia)).
  pose proof (align_to_bounds (len data) BLOCK_SIZE ltac:(unfold BLOCK_SIZE; lia)).
  rewrite !len_app, !len_zeros by lia. unfold len at 1. rewrite Hl. lia.
Qed.

Lemma pack_entry_nonempty nb data ft mode block :
  pack_entry nb data ft mode = Ok block -> block <> [].
Proof.
  intros H ->. destruct (pack_entry_inv _ _ _ _ _ H) as (fields & _ & Hl & E).
  destruct fields; [discriminate Hl | discriminate E].
Qed.

(** ** One iteration of the inspector's loop *)

Lemma inspect_entries_S n i f :
  inspect_entries (S n) i f =
  let '(header, f) := f_read 32 f in
  match struct_unpack 5 (firstn 20 header) with
  | Raise e => ([], Raise e)
  | Ok fields =>
      if negb (nth 0 fields 0 =? FILE_MAGIC) then ([InvalidFileMagic i], Ok tt)
      else
        let '(raw, f) := f_read (align_to (nth 1 fields 0) 4) f in
        match utf8_decode (firstn (Z.to_nat (nth 1 fields 0)) raw) with
        | Raise e => ([], Raise e)
        | Ok name =>
            let '(out, r) :=
              inspect_entries n (i + 1)
                (f_seek_cur (align_to (nth 2 fields 0) BLOCK_SIZE) f) in
            (EntryInfo
               (if nth 3 fields 0 =? FILE_TYPE_FILE then "FILE" else "DIR ")
               name (nth 2 fields 0) (nth 4 fields 0) :: out, r)
        end
  end.
Proof. reflexivity. Qed.

(** A well-formed entry at the reading position is listed, and the reader
    ends up right behind its data block. *)
Lemma inspect_entries_step n i f e block ln tl :
  entry_block e = Ok block -> entry_line e = Ok ln ->
  0 <= pos f -> rest f = block ++ tl ->
  inspect_entries (S n) i f =
  let '(out, r) := inspect_entries n (i + 1) (advance (len block) f) in
  (ln :: out, r).
Proof.
  intros Hb Hln Hp Hr. unfold entry_block in Hb.
  pose proof (pack_entry_len _ _ _ _ _ Hb) as Hlen.
  destruct (pack_entry_inv _ _ _ _ _ Hb) as (fields & Ef & Hl & ->).
  unfold entry_line in Hln.
  destruct (utf8_decode (e_name e)) as [name|] eqn:En; simpl in Hln; [|discriminate].
  inversion Hln; subst ln; clear Hln.
  pose proof (align_to_bounds (len (e_name e)) 4 ltac:(lia)) as Ba.
  pose proof (align_to_bounds (len (e_data e)) BLOCK_SIZE
                ltac:(unfold BLOCK_SIZE; lia)) as Bd.
  set (npad := zeros (align_to (len (e_name e)) 4 - len (e_name e))) in *.
  set (dblock := e_data e ++
         zeros (align_to (len (e_data e)) BLOCK_SIZE - len (e_data e))) in *.
  rewrite inspect_entries_S.
  rewrite (f_read_rest 32 f (fields ++ zeros 12)
             ((e_name e ++ npad) ++ dblock ++ tl)).
  2:{ rewrite Hr. now rewrite <- !app_assoc. }
  2:{ rewrite len_app. unfold len at 1. rewrite Hl. reflexivity. }
  rewrite (take_app_length' fields (zeros 12) 20 (eq_sym Hl)).
  pose proof (struct_unpack_pack _ _ Ef) as U. simpl length in U. rewrite U.
  cbn [nth]. rewrite Z.eqb_refl. cbn [negb].
  assert (R1 : rest (advance 32 f) = (e_name e ++ npad) ++ dblock ++ tl).
  { replace 32 with (len (fields ++ zeros 12))
      by (rewrite len_app; unfold len at 1; rewrite Hl; reflexivity).
    apply rest_advance; [exact Hp|]. rewrite Hr. now rewrite <- !app_assoc. }
  assert (Ln : len (e_name e ++ npad) = align_to (len (e_name e)) 4).
  { subst npad. rewrite len_app, len_zeros by lia. lia. }
  rewrite (f_read_rest _ (advance 32 f) _ _ R1 Ln).
  rewrite (take_app_length' (e_name e) npad) by (unfold len; lia).
  rewrite En. rewrite f_seek_cur_advance, !advance_advance.
  match goal with
  | |- context [advance ?x f] =>
      replace x
        with (len (fields ++ zeros 12 ++ (e_name e ++ npad) ++ dblock)) by lia
  end.
  reflexivity.
Qed.

(** ** A run of entries *)

Lemma rmapM_Forall2 {A B} (f : A -> result B) l ys :
  rmapM f l = Ok ys <-> Forall2 (fun x y => f x = Ok y) l ys.
Proof.
  revert ys. induction l as [|x l IH]; simpl; intros ys.
  - split; [intros H; inversion H; constructor | intros H; inversion H; reflexivity].
  - split.
    + destruct (f x) as [y|] eqn:E; simpl; [|discriminate].
      destruct (rmapM f l) as [ys'|]; simpl; [|discriminate].
      intros H; inversion H; subst. constructor; [exact E | now apply IH].
    + intros H. inversion H as [|? y ? ys' Hy Hys]; subst.
      rewrite Hy. simpl. apply IH in Hys. rewrite Hys. reflexivity.
Qed.

Lemma rmapM_length {A B} (f : A -> result B) l ys :
  rmapM f l = Ok ys -> length ys = length l.
Proof.
  intros H. apply rmapM_Forall2 in H. symmetry. eapply Forall2_length; eauto.
Qed.

Lemma rmapM_app {A B} (f : A -> result B) l1 l2 ys :
  rmapM f (l1 ++ l2) = Ok ys ->
  exists y1 y2, rmapM f l1 = Ok y1 /\ rmapM f l2 = Ok y2 /\ ys = y1 ++ y2.
Proof.
  intros H. apply rmapM_Forall2 in H.
  apply Forall2_app_inv_l in H as (y1 & y2 & H1 & H2 & ->).
  exists y1, y2. split; [|split]; [now apply rmapM_Forall2 .. | reflexivity].
Qed.

Lemma advance_0 f : advance 0 f = f.
Proof. destruct f. unfold advance. simpl. f_equal. lia. Qed.

Lemma inspect_entries_blocks es :
  forall blocks lines f tl n i,
    rmapM entry_block es = Ok blocks -> rmapM entry_line es = Ok lines ->
    0 <= pos f -> rest f = concat blocks ++ tl ->
    inspect_entries (length es + n) i f =
    let '(out, r) :=
      inspect_entries n (i + len es) (advance (len (concat blocks)) f) in
    (lines ++ out, r).
Proof.
  induction es as [|e es IH]; intros blocks lines f tl n i Hb Hl Hp Hr;
    simpl in Hb, Hl.
  - inversion Hb; inversion Hl; subst. simpl concat. simpl length. simpl app.
    change (0 + n)%nat with n.
    change (len []) with 0. rewrite advance_0, Z.add_0_r.
    now destruct (inspect_entries n i f).
  - destruct (entry_block e) as [b|] eqn:Eb; simpl in Hb; [|discriminate].
    destruct (rmapM entry_block es) as [bs|] eqn:Ebs; simpl in Hb; [|discriminate].
    destruct (entry_line e) as [ln|] eqn:El; simpl in Hl; [|discriminate].
    destruct (rmapM entry_line es) as [lns|] eqn:Els; simpl in Hl; [|discriminate].
    inversion Hb; inversion Hl; subst; clear Hb Hl.
    simpl concat in *. rewrite <- app_assoc in Hr.
    change (length (e :: es) + n)%nat with (S (length es + n)).
    rewrite (inspect_entries_step _ _ _ _ _ _ _ Eb El Hp Hr).
    rewrite (IH bs lns (advance (len b) f) tl n (i + 1) eq_refl eq_refl).
    + rewrite advance_advance, len_app.
      replace (i + 1 + len es) with (i + len (e :: es))
        by (unfold len; simpl length; lia).
      now destruct (inspect_entries n _ _).
    + rewrite pos_advance. pose proof (len_nonneg b). lia.
    + now apply rest_advance.
Qed.

(** A header whose first field is not the entry magic ends the listing. *)
Lemma inspect_entries_bad_magic n i f m tl :
  rest f = m ++ tl -> length m = 4%nat -> (28 <= length tl)%nat ->
  le_decode m <> FILE_MAGIC ->
  inspect_entries (S n) i f = ([InvalidFileMagic i], Ok tt).
Proof.
  intros Hr Hm Htl Hne. rewrite inspect_entries_S.
  unfold f_read. fold (rest f). rewrite Hr.
  change (Z.to_nat 32) with 32%nat.
  rewrite take_take. change (20 `min` 32)%nat with 20%nat.
  assert (E : firstn 20 (m ++ tl) = m ++ firstn 16 tl).
  { rewrite take_app. rewrite Hm. rewrite take_ge by lia. reflexivity. }
  rewrite E. unfold struct_unpack.
  assert (L : length (m ++ firstn 16 tl) = 20%nat).
  { rewrite length_app, length_take. lia. }
  rewrite L. change (Nat.eqb 20 (4 * 5)) with true. cbv iota.
  cbn [chunks4 map nth].
  rewrite (take_app_length' m _ 4 (eq_sym Hm)).
  destruct (le_decode m =? FILE_MAGIC) eqn:Em; [apply Z.eqb_eq in Em; contradiction|].
  reflexivity.
Qed.

(** ** The image header *)

Lemma write_image_inv blocks n size img :
  write_image blocks = Ok (n, size, img) ->
  let body_len := 16 + len (concat blocks) in
  n = len blocks /\ uint32 n /\ size = len img
  /\ size = align_to body_len BLOCK_SIZE
  /\ exists cnt,
      pack_I n = Ok cnt /\ length cnt = 4%nat
      /\ img = MAGIC ++ cnt ++ zeros 4 ++ concat blocks
               ++ zeros (align_to body_len BLOCK_SIZE - body_len).
Proof.
  intros H.
  assert (Hn : uint32 (len blocks)).
  { unfold write_image in H.
    destruct (struct_pack [len blocks; 0]) as [counts|] eqn:E; [|discriminate].
    apply struct_pack_uint32 in E. now inversion E. }
  destruct (pack_I_ok _ Hn) as (cnt & Ec & Hl & _).
  assert (E : struct_pack [len blocks; 0] = Ok (cnt ++ zeros 4)).
  { cbn [struct_pack]. rewrite Ec. reflexivity. }
  unfold write_image in H. rewrite E in H. cbn [rbind] in H. cbv zeta in H.
  assert (L16 : len (MAGIC ++ cnt ++ zeros 4) = 16).
  { unfold len. rewrite !length_app, Hl. reflexivity. }
  rewrite L16 in H. change (zeros (16 - 16)) with (@nil byte) in H.
  rewrite app_nil_r in H. rewrite len_app, L16 in H.
  pose proof (align_to_bounds (16 + len (concat blocks)) BLOCK_SIZE
                ltac:(unfold BLOCK_SIZE; lia)) as B.
  set (body_len := 16 + len (concat blocks)) in *.
  assert (Himg : (if 0 <? align_to body_len BLOCK_SIZE - body_len
                  then ((MAGIC ++ cnt ++ zeros 4) ++ concat blocks)
                       ++ zeros (align_to body_len BLOCK_SIZE - body_len)
                  else (MAGIC ++ cnt ++ zeros 4) ++ concat blocks)
                 = MAGIC ++ cnt ++ zeros 4 ++ concat blocks
                   ++ zeros (align_to body_len BLOCK_SIZE - body_len)).
  { destruct (0 <? _) eqn:E0.
    - now rewrite <- !app_assoc.
    - apply Z.ltb_ge in E0. rewrite (len_zeros_neg _ E0), app_nil_r.
      now rewrite <- !app_assoc. }
  rewrite Himg in H.
  apply Ok_inj in H. apply pair_equal_spec in H as [H <-].
  apply pair_equal_spec in H as [<- <-]. cbv zeta.
  split; [reflexivity|]. split; [exact Hn|]. split; [reflexivity|].
  split.
  - rewrite !len_app, !len_zeros by lia.
    change (len MAGIC) with 8.
    assert (len cnt = 4) as -> by (unfold len; lia). subst body_len. lia.
  - exists cnt. auto.
Qed.

Lemma inspect_simple_fs_header n cnt body :
  pack_I n = Ok cnt ->
  inspect_simple_fs (MAGIC ++ cnt ++ zeros 4 ++ body) =
  let '(out, r) :=
    inspect_entries (Z.to_nat n) 0
      {| content := MAGIC ++ cnt ++ zeros 4 ++ body; pos := 16 |} in
  (ImageInfo n :: out, r).
Proof.
  intros Ec.
  assert (Hn : uint32 n).
  { destruct (decide (uint32 n)) as [H|H]; [exact H|].
    rewrite pack_I_raises in Ec by exact H. discriminate. }
  destruct (pack_I_ok n Hn) as (cnt' & Ec' & Hl & Hd).
  rewrite Ec in Ec'. apply Ok_inj in Ec'. subst cnt'.
  unfold inspect_simple_fs.
  set (img := MAGIC ++ cnt ++ zeros 4 ++ body).
  set (f0 := {| content := img; pos := 0 |}).
  assert (R0 : rest f0 = MAGIC ++ cnt ++ zeros 4 ++ body) by reflexivity.
  rewrite (f_read_rest 8 f0 MAGIC _ R0 eq_refl).
  rewrite bool_decide_eq_true_2 by reflexivity. cbn [negb].
  assert (R1 : rest (advance 8 f0) = cnt ++ zeros 4 ++ body).
  { apply (rest_advance f0 MAGIC); [simpl; lia | exact R0]. }
  assert (L4 : len cnt = 4) by (unfold len; lia).
  rewrite (f_read_rest 4 (advance 8 f0) cnt _ R1 L4).
  assert (U : struct_unpack 1 cnt = Ok [n]).
  { apply (struct_unpack_pack [n]). cbn [struct_pack]. rewrite Ec.
    cbn [rbind]. now rewrite app_nil_r. }
  rewrite U. cbn [nth].
  assert (R2 : rest (advance 4 (advance 8 f0)) = zeros 4 ++ body).
  { pose proof (rest_advance (advance 8 f0) cnt _ ltac:(simpl; lia) R1) as R.
    now rewrite L4 in R. }
  rewrite (f_read_rest 4 _ (zeros 4) _ R2 eq_refl).
  reflexivity.
Qed.

Lemma rest_after_header cnt body :
  length cnt = 4%nat ->
  rest {| content := MAGIC ++ cnt ++ zeros 4 ++ body; pos := 16 |} = body.
Proof.
  intros Hl. unfold rest. cbn [pos content].
  change (Z.to_nat 16) with 16%nat.
  replace (MAGIC ++ cnt ++ zeros 4 ++ body)
    with ((MAGIC ++ cnt ++ zeros 4) ++ body) by now rewrite <- !app_assoc.
  apply drop_app_length'. rewrite !length_app, Hl. reflexivity.
Qed.

(** The inspector lists exactly the entries of an image written from them. *)
Lemma inspect_image_of es n size img lines :
  image_of es = Ok (n, size, img) -> rmapM entry_line es = Ok lines ->
  inspect_simple_fs img = (ImageInfo n :: lines, Ok tt).
Proof.
  unfold image_of. intros H Hl.
  destruct (rmapM entry_block es) as [blocks|] eqn:Eb; [|discriminate].
  cbn [rbind] in H.
  destruct (write_image_inv _ _ _ _ H) as (Hn & Hu & _ & _ & cnt & Ec & Hc & ->).
  rewrite (inspect_simple_fs_header n cnt _ Ec).
  pose proof (rmapM_length _ _ _ Eb) as Hlen.
  replace (Z.to_nat n) with (length es + 0)%nat
    by (subst n; unfold len; lia).
  rewrite (inspect_entries_blocks es blocks lines _
             (zeros (align_to (16 + len (concat blocks)) BLOCK_SIZE
                     - (16 + len (concat blocks)))) 0%nat 0 Eb Hl);
    [|simpl; lia|now apply rest_after_header].
  cbn [inspect_entries]. now rewrite app_nil_r.
Qed.

(** ** From the packer to the stored entries *)

Lemma pack_file_emitted it :
  emitted it = true ->
  pack_file it = (do e <- entry_of it; entry_block e).
Proof.
  unfold emitted, pack_file, entry_of, entry_block, skipped_name.
  intros H. apply andb_true_iff in H as [Hs Hk].
  apply negb_true_iff in Hs. rewrite Hs.
  destruct (utf8_encode _) as [nb|]; [|reflexivity].
  cbn [rbind e_name e_data e_type e_mode].
  unfold is_file, is_dir, item_data in *.
  destruct (snd it); try reflexivity. discriminate.
Qed.

Lemma pack_file_not_emitted it block :
  emitted it = false -> pack_file it = Ok block -> block = [].
Proof.
  unfold emitted, pack_file, skipped_name. intros H.
  destruct (startswith_dot _ || str_in _ _); [congruence|].
  cbn [negb andb] in H. unfold is_file, is_dir in H.
  destruct (utf8_encode _); cbn [rbind]; [|discriminate].
  destruct (snd it); try discriminate. congruence.
Qed.

Lemma entry_block_nonempty e block : entry_block e = Ok block -> block <> [].
Proof. apply pack_entry_nonempty. Qed.

Lemma pack_all_entries files blocks :
  pack_all files = Ok blocks ->
  exists es, rmapM entry_of (List.filter emitted files) = Ok es
             /\ rmapM entry_block es = Ok blocks.
Proof.
  revert blocks. induction files as [|it files IH]; intros blocks H.
  - apply Ok_inj in H. subst. exists []. auto.
  - cbn [pack_all] in H.
    destruct (pack_file it) as [packed|] eqn:Ep; [|discriminate].
    destruct (pack_all files) as [rest0|]; [|discriminate].
    cbn [rbind] in H. apply Ok_inj in H.
    destruct (IH rest0 eq_refl) as (es & Ees & Ebs).
    cbn [List.filter]. destruct (emitted it) eqn:Em.
    + rewrite (pack_file_emitted it Em) in Ep.
      destruct (entry_of it) as [e|] eqn:Ee; [|discriminate].
      cbn [rbind] in Ep. pose proof (entry_block_nonempty _ _ Ep) as Hne.
      exists (e :: es). cbn [rmapM]. rewrite Ee, Ees, Ep, Ebs. cbn [rbind].
      split; [reflexivity|]. destruct packed; [contradiction | now subst].
    + rewrite (pack_file_not_emitted it packed Em Ep) in H. subst.
      exists es. auto.
Qed.

Lemma entry_line_of it e :
  entry_of it = Ok e -> entry_line e = Ok (item_line it).
Proof.
  unfold entry_of, entry_line, item_line. intros H.
  destruct (utf8_encode _) as [nb|] eqn:En; [|discriminate].
  apply Ok_inj in H. subst e. cbn [e_name e_data e_type e_mode rbind].
  rewrite (utf8_decode_encode _ _ En). cbn [rbind].
  now destruct (is_file it).
Qed.

Lemma entry_lines_of items es :
  rmapM entry_of items = Ok es ->
  rmapM entry_line es = Ok (map item_line items).
Proof.
  intros H. apply rmapM_Forall2 in H. apply rmapM_Forall2.
  induction H as [|it e items es He _ IH]; simpl; constructor.
  - now apply entry_line_of.
  - exact IH.
Qed.

(** A successful run writes the image of the entries of [packed_items]. *)
Lemma make_simple_fs_image_of root n size img :
  make_simple_fs (Some root) = Ok (n, size, img) ->
  exists es, rmapM entry_of (packed_items (Some root)) = Ok es
             /\ image_of es = Ok (n, size, img).
Proof.
  unfold make_simple_fs, make_simple_fs_from. intros H.
  destruct (pack_all _) as [blocks|] eqn:Ep; [|discriminate].
  cbn [rbind] in H.
  destruct (pack_all_entries _ _ Ep) as (es & Ees & Ebs).
  exists es. split; [exact Ees|]. unfold image_of. now rewrite Ebs.
Qed.

(** Inspecting the image of a successful run lists [packed_items]. *)
Lemma inspect_make_simple_fs root n size img :
  make_simple_fs (Some root) = Ok (n, size, img) ->
  inspect_simple_fs img
  = (ImageInfo n :: map item_line (packed_items (Some root)), Ok tt)
  /\ n = len (packed_items (Some root)).
Proof.
  intros H. destruct (make_simple_fs_image_of _ _ _ _ H) as (es & Ees & Him).
  split.
  - apply (inspect_image_of es n size img); [exact Him|].
    now apply entry_lines_of.
  - unfold image_of in Him.
    destruct (rmapM entry_block es) as [blocks|] eqn:Eb; [|discriminate].
    cbn [rbind] in Him. apply write_image_inv in Him as (-> & _).
    unfold len. now rewrite (rmapM_length _ _ _ Eb), (rmapM_length _ _ _ Ees).
Qed.

(** ** The order on paths *)

Section lex_order.
Context {A : Type} (ltb : A -> A -> bool).
Hypothesis ltb_irrefl : forall x, ltb x x = false.
Hypothesis ltb_trans :
  forall x y z, ltb x y = true -> ltb y z = true -> ltb x z = true.
Hypothesis ltb_total :
  forall x y, ltb x y = false -> ltb y x = false -> x = y.

Lemma lex_ltb_irrefl a : lex_ltb ltb a a = false.
Proof.
  induction a as [|x a IH]; simpl; [reflexivity|].
  now rewrite ltb_irrefl.
Qed.

Lemma ltb_asym x y : ltb x y = true -> ltb y x = false.
Proof.
  intros H. destruct (ltb y x) eqn:E; [|reflexivity].
  rewrite <- (ltb_irrefl x). symmetry. eapply ltb_trans; eauto.
Qed.

Lemma lex_ltb_trans a :
  forall b c, lex_ltb ltb a b = true -> lex_ltb ltb b c = true ->
              lex_ltb ltb a c = true.
Proof.
  induction a as [|x a IH]; intros [|y b] [|z c]; simpl; try congruence.
  destruct (ltb x y) eqn:Exy.
  - intros _. destruct (ltb y z) eqn:Eyz.
    + intros _. now rewrite (ltb_trans _ _ _ Exy Eyz).
    + destruct (ltb z y) eqn:Ezy; [discriminate|].
      rewrite <- (ltb_total _ _ Eyz Ezy). now rewrite Exy.
  - destruct (ltb y x) eqn:Eyx; [discriminate|].
    pose proof (ltb_total _ _ Exy Eyx) as ->.
    destruct (ltb y z); [reflexivity|].
    destruct (ltb z y); [discriminate|]. apply IH.
Qed.

Lemma lex_ltb_total a :
  forall b, lex_ltb ltb a b = false -> lex_ltb ltb b a = false -> a = b.
Proof.
  induction a as [|x a IH]; intros [|y b]; simpl; try congruence.
  destruct (ltb x y) eqn:Exy; [discriminate|].
  destruct (ltb y x) eqn:Eyx; [discriminate|].
  intros H1 H2. f_equal; [now apply ltb_total | now apply IH].
Qed.

(** A proper prefix comes first. *)
Lemma lex_ltb_prefix a b : b <> [] -> lex_ltb ltb a (a ++ b) = true.
Proof.
  intros Hb. induction a as [|x a IH]; simpl.
  - destruct b; [contradiction | reflexivity].
  - now rewrite ltb_irrefl.
Qed.
End lex_order.

Lemma str_ltb_irrefl a : str_ltb a a = false.
Proof. apply lex_ltb_irrefl, Z.ltb_irrefl. Qed.

Lemma str_ltb_trans a b c :
  str_ltb a b = true -> str_ltb b c = true -> str_ltb a c = true.
Proof.
  apply lex_ltb_trans.
  - intros x y z H1 H2. apply Z.ltb_lt in H1, H2. apply Z.ltb_lt. lia.
  - intros x y H1 H2. apply Z.ltb_ge in H1, H2. lia.
Qed.

Lemma str_ltb_total a b : str_ltb a b = false -> str_ltb b a = false -> a = b.
Proof.
  apply lex_ltb_total. intros x y H1 H2. apply Z.ltb_ge in H1, H2. lia.
Qed.

Lemma path_ltb_irrefl p : path_ltb p p = false.
Proof. apply lex_ltb_irrefl, str_ltb_irrefl. Qed.

Lemma path_ltb_trans p q r :
  path_ltb p q = true -> path_ltb q r = true -> path_ltb p r = true.
Proof.
  apply lex_ltb_trans; [apply str_ltb_trans | apply str_ltb_total].
Qed.

Lemma path_ltb_total p q :
  path_ltb p q = false -> path_ltb q p = false -> p = q.
Proof. apply lex_ltb_total, str_ltb_total. Qed.

Lemma path_ltb_asym p q : path_ltb p q = true -> path_ltb q p = false.
Proof.
  apply ltb_asym; [apply path_ltb_irrefl | apply path_ltb_trans].
Qed.

Lemma path_ltb_prefix p q : q <> [] -> path_ltb p (p ++ q) = true.
Proof. apply lex_ltb_prefix, str_ltb_irrefl. Qed.

#[global] Instance item_le_trans : Transitive item_le.
Proof.
  unfold item_le. intros x y z Hxy Hyz.
  destruct (path_ltb (fst z) (fst x)) eqn:E; [|reflexivity].
  destruct (path_ltb (fst y) (fst z)) eqn:E2.
  - rewrite (path_ltb_trans _ _ _ E2 E) in Hxy. discriminate.
  - rewrite (path_ltb_total _ _ Hyz E2) in E. congruence.
Qed.

Lemma item_le_total x y : item_le x y \/ item_le y x.
Proof.
  unfold item_le. destruct (path_ltb (fst y) (fst x)) eqn:E; [|now left].
  right. now apply path_ltb_asym.
Qed.

(** ** sorted *)

Lemma insert_sorted_Permutation x l : insert_sorted x l ≡ₚ x :: l.
Proof.
  induction l as [|y l IH]; simpl; [reflexivity|].
  destruct (path_ltb (fst y) (fst x)); [|reflexivity].
  rewrite IH. apply perm_swap.
Qed.

Lemma sorted_Permutation l : sorted l ≡ₚ l.
Proof.
  induction l as [|x l IH]; simpl; [reflexivity|].
  now rewrite insert_sorted_Permutation, IH.
Qed.

Lemma insert_sorted_StronglySorted x l :
  StronglySorted item_le l -> StronglySorted item_le (insert_sorted x l).
Proof.
  induction 1 as [|y l Hl IH Hy]; simpl.
  - repeat constructor.
  - destruct (path_ltb (fst y) (fst x)) eqn:E.
    + constructor; [exact IH|].
      rewrite insert_sorted_Permutation. constructor; [|exact Hy].
      unfold item_le. now apply path_ltb_asym.
    + constructor; [now constructor|]. constructor; [exact E|].
      eapply Forall_impl; [exact Hy|]. intros z Hz. cbv beta.
      transitivity y; [exact E | exact Hz].
Qed.

Lemma sorted_StronglySorted l : StronglySorted item_le (sorted l).
Proof.
  induction l as [|x l IH]; simpl; [constructor|].
  now apply insert_sorted_StronglySorted.
Qed.

(** With distinct paths the result of sorting does not depend on the order
    of the input. *)
Lemma sorted_unique l1 l2 :
  NoDup (map fst l1) -> l1 ≡ₚ l2 -> sorted l1 = sorted l2.
Proof.
  intros Hnd Hp.
  apply (StronglySorted_unique_strong item_le);
    [|apply sorted_StronglySorted..|now rewrite !sorted_Permutation].
  intros x y Hx Hy Hxy Hyx.
  rewrite sorted_Permutation in Hx. rewrite sorted_Permutation, <- Hp in Hy.
  pose proof (path_ltb_total _ _ Hxy Hyx) as Hfst.
  clear -Hnd Hx Hy Hfst.
  induction l1 as [|z l1 IH]; [inversion Hx|].
  simpl in Hnd. apply NoDup_cons in Hnd as [Hz Hnd].
  apply elem_of_cons in Hx as [->|Hx]; apply elem_of_cons in Hy as [->|Hy].
  - reflexivity.
  - exfalso. apply Hz. rewrite <- Hfst.
    now apply list_elem_of_In, in_map, list_elem_of_In.
  - exfalso. apply Hz. rewrite Hfst.
    now apply list_elem_of_In, in_map, list_elem_of_In.
  - now apply IH.
Qed.

(** ** The source tree *)

Lemma rglob_Dir prefix m cs : rglob prefix (Dir m cs) = rglob_children prefix cs.
Proof. reflexivity. Qed.

Lemma rglob_children_cons prefix c cs :
  rglob_children prefix (c :: cs) =
  (prefix ++ [fst c], snd c) :: rglob (prefix ++ [fst c]) (snd c)
  ++ rglob_children prefix cs.
Proof. reflexivity. Qed.

(** Every listed path lies strictly below the directory. *)
Lemma rglob_below n :
  forall prefix it, In it (rglob prefix n) ->
                    exists q, q <> [] /\ fst it = prefix ++ q.
Proof.
  induction n as [m d | m cs IH | m] using node_ind';
    intros prefix it Hin; try contradiction.
  rewrite rglob_Dir in Hin. unfold rglob_children in Hin.
  apply in_flat_map in Hin as (c & Hc & [<- | Hin]).
  - exists [fst c]. split; [discriminate | reflexivity].
  - rewrite Forall_forall in IH.
    destruct (IH c (proj2 (list_elem_of_In _ _) Hc) _ _ Hin) as (q & Hq & E).
    exists (fst c :: q). split; [discriminate|].
    rewrite E. now rewrite <- app_assoc.
Qed.

Lemma rglob_children_below prefix cs it :
  In it (rglob_children prefix cs) ->
  exists c q, In c cs /\ fst it = prefix ++ fst c :: q.
Proof.
  unfold rglob_children. intros Hin.
  apply in_flat_map in Hin as (c & Hc & [<- | Hin]).
  - exists c, []. auto.
  - destruct (rglob_below _ _ _ Hin) as (q & _ & E).
    exists c, q. split; [exact Hc|]. rewrite E. now rewrite <- app_assoc.
Qed.

Lemma wf_node_Dir m cs :
  wf_node (Dir m cs) = true ->
  NoDup (map fst cs) /\ Forall (fun c => wf_node (snd c) = true) cs.
Proof.
  cbn [wf_node]. intros H. apply andb_true_iff in H as [H1 H2].
  apply bool_decide_eq_true in H1. split; [exact H1|].
  apply Forall_forall. intros c Hc. rewrite forallb_forall in H2.
  apply H2. now apply list_elem_of_In.
Qed.

(** In a well-formed tree no path is listed twice. *)
Lemma rglob_NoDup n :
  forall prefix, wf_node n = true -> NoDup (map fst (rglob prefix n)).
Proof.
  induction n as [m d | m cs IH | m] using node_ind';
    intros prefix Hwf; try constructor.
  apply wf_node_Dir in Hwf as [Hnd Hwf]. rewrite rglob_Dir.
  induction cs as [|c cs IHcs]; [constructor|].
  rewrite rglob_children_cons.
  apply Forall_cons in IH as [IHc IH]. apply Forall_cons in Hwf as [Hc Hwf].
  cbn [map] in Hnd. apply NoDup_cons in Hnd as [Hfresh Hnd].
  specialize (IHcs IH Hnd Hwf).
  cbn [map fst]. rewrite map_app.
  assert (Hother : forall it, In it (rglob_children prefix cs) ->
                              forall q, fst it <> prefix ++ fst c :: q).
  { intros it Hit q E.
    destruct (rglob_children_below _ _ _ Hit) as (c' & q' & Hc' & E').
    rewrite E' in E. apply app_inv_head in E. inversion E as [[E1 E2]].
    apply Hfresh. rewrite <- E1. now apply list_elem_of_In, in_map. }
  apply NoDup_cons. split.
  - rewrite elem_of_app. intros [Hin | Hin]; apply list_elem_of_In in Hin;
      apply in_map_iff in Hin as (it & E & Hit).
    + destruct (rglob_below _ _ _ Hit) as (q & Hq & E').
      rewrite E' in E. rewrite <- (app_nil_r (prefix ++ [fst c])) in E at 2.
      apply app_inv_head in E. contradiction.
    + apply (Hother it Hit []). exact E.
  - apply NoDup_app. split; [now apply IHc|]. split; [|exact IHcs].
    intros p Hp Hp'. apply list_elem_of_In in Hp, Hp'.
    apply in_map_iff in Hp as (it & E & Hit).
    apply in_map_iff in Hp' as (it' & E' & Hit').
    destruct (rglob_below _ _ _ Hit) as (q & _ & Eq).
    apply (Hother it' Hit' q). rewrite E', <- E, Eq. now rewrite <- app_assoc.
Qed.

(** ** The header fields of a stored entry *)

Lemma entry_block_fields e block :
  entry_block e = Ok block ->
  struct_unpack 5 (firstn 20 block)
  = Ok [FILE_MAGIC; len (e_name e); len (e_data e); e_type e; e_mode e].
Proof.
  intros H. destruct (pack_entry_inv _ _ _ _ _ H) as (fields & Ef & Hl & ->).
  rewrite (take_app_length' fields _ 20 (eq_sym Hl)).
  exact (struct_unpack_pack _ _ Ef).
Qed.

(** * The claims *)

(** C3 (defect in the code).  For a source directory that does not exist
    the packer does write an image with no entries, but lines 141-144 only
    pad the header to 16 bytes: the image and the returned size are 16
    bytes, not the 512 bytes of a padded image. *)
Theorem missing_source_image_is_16_bytes :
  make_simple_fs None = Ok (0, 16, MAGIC ++ zeros 8).
Proof. reflexivity. Qed.

(** C2 (defect in the code).  The image written for a missing source
    directory is 16 bytes long, which is not a multiple of the block size;
    the block padding of lines 176-181 is not applied on that path. *)
Theorem missing_source_image_not_block_aligned :
  exists n size img,
    make_simple_fs None = Ok (n, size, img)
    /\ size = len img /\ size mod BLOCK_SIZE = 16.
Proof. exists 0, 16, (MAGIC ++ zeros 8). repeat split. Qed.

(** The part of C2 that holds: for a source directory that exists, the
    image is a whole number of blocks, and it consists of the 16-byte
    header, the entries one right after the other, each taking
    [32 + align_to name_len 4 + align_to data_len 512] bytes, and the
    padding. *)
Lemma make_simple_fs_layout root n size img :
  make_simple_fs (Some root) = Ok (n, size, img) ->
  size = len img /\ size mod BLOCK_SIZE = 0
  /\ exists cnt es blocks,
      pack_I n = Ok cnt /\ length cnt = 4%nat
      /\ rmapM entry_of (packed_items (Some root)) = Ok es
      /\ Forall2 (fun e block =>
                    entry_block e = Ok block
                    /\ len block = 32 + align_to (len (e_name e)) 4
                                   + align_to (len (e_data e)) BLOCK_SIZE)
                 es blocks
      /\ img = MAGIC ++ cnt ++ zeros 4 ++ concat blocks
               ++ zeros (size - (16 + len (concat blocks))).
Proof.
  intros H. destruct (make_simple_fs_image_of _ _ _ _ H) as (es & Ees & Him).
  unfold image_of in Him.
  destruct (rmapM entry_block es) as [blocks|] eqn:Eb; [|discriminate].
  cbn [rbind] in Him.
  destruct (write_image_inv _ _ _ _ Him) as (_ & _ & Hs & Ha & cnt & Ec & Hl & Hi).
  split; [exact Hs|]. split.
  - rewrite Ha. apply align_to_multiple. reflexivity.
  - exists cnt, es, blocks. repeat (split; [assumption|]). split.
    + apply rmapM_Forall2 in Eb. eapply Forall2_impl; [exact Eb|].
      intros e block Hb. split; [exact Hb|]. now apply pack_entry_len in Hb.
    + rewrite Ha. exact Hi.
Qed.

(** C4 (as stated, fails).  The entry written for [bin/hello.txt] is not
    [32 + 8 + 512] bytes long. *)
Lemma example_file_entry_is_not_552_bytes :
  ~ exists block, pack_file hello_item = Ok block /\ len block = 32 + 8 + 512.
Proof.
  intros (block & H & Hl). vm_compute in H. apply Ok_inj in H. subst block.
  vm_compute in Hl. discriminate.
Qed.

(** C4 (amended).  Packing the tree that holds [bin/] and [bin/hello.txt]
    (content [hello]) gives two entries: the image is the 16-byte header,
    the directory entry of [32 + 4] bytes and the file entry of
    [32 + 16 + 512] bytes (the stored name is [bin/hello.txt], 13 bytes
    padded to 16), then zero bytes up to 1024, the next multiple of 512. *)
Theorem example_image_layout :
  exists header dir_entry file_entry,
    pack_file bin_item = Ok dir_entry
    /\ pack_file hello_item = Ok file_entry
    /\ len header = 16
    /\ len dir_entry = 32 + 4
    /\ len file_entry = 32 + 16 + 512
    /\ align_to (16 + (32 + 4) + (32 + 16 + 512)) BLOCK_SIZE = 1024
    /\ collect_files (Some example_tree) = [bin_item; hello_item]
    /\ make_simple_fs (Some example_tree)
       = Ok (2, 1024, header ++ dir_entry ++ file_entry ++ zeros 412).
Proof.
  eexists (MAGIC ++ [x02; x00; x00; x00] ++ zeros 4), _, _.
  split; [vm_compute; reflexivity|].
  split; [vm_compute; reflexivity|].
  repeat split; vm_compute; reflexivity.
Qed.

(** C9.  Whatever [pack_file] writes for an item is the entry of a regular
    file with mode 0o644 (420) or of a directory with mode 0o755 (493); the
    permissions the item has in the source tree play no part. *)
Theorem pack_file_mode it block :
  pack_file it = Ok block -> block <> [] ->
  exists name_len data_len,
    (is_file it = true
     /\ struct_unpack 5 (firstn 20 block)
        = Ok [FILE_MAGIC; name_len; data_len; FILE_TYPE_FILE; 420])
    \/ (is_dir it = true
        /\ struct_unpack 5 (firstn 20 block)
           = Ok [FILE_MAGIC; name_len; data_len; FILE_TYPE_DIR; 493]).
Proof.
  intros H Hne.
  destruct (emitted it) eqn:Em.
  2:{ now apply (pack_file_not_emitted it block Em) in H. }
  rewrite (pack_file_emitted it Em) in H.
  destruct (entry_of it) as [e|] eqn:Ee; [|discriminate]. cbn [rbind] in H.
  apply entry_block_fields in H. rewrite H.
  unfold entry_of in Ee.
  destruct (utf8_encode _) as [nb|]; [|discriminate].
  apply Ok_inj in Ee. subst e. cbn [e_name e_data e_type e_mode].
  exists (len nb), (len (item_data it)).
  unfold emitted in Em. apply andb_true_iff in Em as [_ Hk].
  destruct (is_file it) eqn:Ef.
  - left. auto.
  - right. cbn [orb] in Hk. auto.
Qed.

Lemma pack_file_mode_witness :
  pack_file hello_item = Ok hello_block /\ hello_block <> []
  /\ exists name_len data_len,
      (is_file hello_item = true
       /\ struct_unpack 5 (firstn 20 hello_block)
          = Ok [FILE_MAGIC; name_len; data_len; FILE_TYPE_FILE; 420])
      \/ (is_dir hello_item = true
          /\ struct_unpack 5 (firstn 20 hello_block)
             = Ok [FILE_MAGIC; name_len; data_len; FILE_TYPE_DIR; 493]).
Proof.
  assert (H : pack_file hello_item = Ok hello_block) by (vm_compute; reflexivity).
  assert (Hne : hello_block <> []) by (vm_compute; discriminate).
  split; [exact H|]. split; [exact Hne|].
  exact (pack_file_mode hello_item hello_block H Hne).
Defined.

(** C10.  For an image holding any entries whatever, the inspector lists
    every entry and raises nothing; an entry is reported as [FILE] exactly
    when its kind field is 0, and as [DIR ] for every other value of the
    field, defined or not. *)
Theorem inspect_nonzero_kind_is_directory es n size img lines :
  image_of es = Ok (n, size, img) ->
  rmapM entry_line es = Ok lines ->
  inspect_simple_fs img = (ImageInfo n :: lines, Ok tt)
  /\ Forall2
       (fun e ln =>
          exists type_str name,
            ln = EntryInfo type_str name (len (e_data e)) (e_mode e)
            /\ (e_type e = 0 -> type_str = "FILE"%string)
            /\ (e_type e <> 0 -> type_str = "DIR "%string))
       es lines.
Proof.
  intros Him Hl. split; [now apply (inspect_image_of es n size)|].
  apply rmapM_Forall2 in Hl. eapply Forall2_impl; [exact Hl|].
  intros e ln He. unfold entry_line in He.
  destruct (utf8_decode (e_name e)) as [name|]; [|discriminate].
  apply Ok_inj in He. subst ln. unfold FILE_TYPE_FILE.
  eexists _, name. split; [reflexivity|].
  destruct (e_type e =? 0) eqn:E; bool_hyps; split; congruence.
Qed.

Lemma inspect_nonzero_kind_is_directory_witness :
  inspect_simple_fs odd_image
  = (ImageInfo 2 :: [EntryInfo "DIR " [98; 105; 110] 0 493;
                     EntryInfo "DIR " [97] 1 420], Ok tt)
  /\ Forall2
       (fun e ln =>
          exists type_str name,
            ln = EntryInfo type_str name (len (e_data e)) (e_mode e)
            /\ (e_type e = 0 -> type_str = "FILE"%string)
            /\ (e_type e <> 0 -> type_str = "DIR "%string))
       [bin_entry; odd_entry]
       [EntryInfo "DIR " [98; 105; 110] 0 493; EntryInfo "DIR " [97] 1 420].
Proof.
  apply (inspect_nonzero_kind_is_directory [bin_entry; odd_entry] 2 1024).
  - vm_compute. reflexivity.
  - vm_compute. reflexivity.
Defined.

(** ** Corrupting the magic of an entry *)

Lemma entry_block_magic e block :
  entry_block e = Ok block ->
  exists tl, block = magic4 ++ tl /\ (28 <= length tl)%nat.
Proof.
  intros H. destruct (pack_entry_inv _ _ _ _ _ H) as (fields & Ef & Hl & ->).
  destruct (struct_pack_app_inv [FILE_MAGIC]
              [len (e_name e); len (e_data e); e_type e; e_mode e] fields Ef)
    as (b1 & b2 & E1 & E2 & ->).
  vm_compute in E1. apply Ok_inj in E1. subst b1.
  apply struct_pack_length in E2. simpl length in E2.
  eexists. rewrite <- !app_assoc. split; [reflexivity|].
  rewrite !length_app, E2. unfold zeros. rewrite repeat_length. lia.
Qed.

Lemma rmapM_split {A B} (f : A -> result B) l ys (i : nat) :
  rmapM f l = Ok ys -> (i < length l)%nat ->
  exists x l2 y y2,
    l = firstn i l ++ x :: l2 /\ ys = firstn i ys ++ y :: y2
    /\ rmapM f (firstn i l) = Ok (firstn i ys) /\ f x = Ok y
    /\ length (firstn i l) = i.
Proof.
  intros H Hi. pose proof (rmapM_length _ _ _ H) as Hlen.
  rewrite <- (take_drop i l) in H.
  destruct (drop i l) as [|x l2] eqn:Ed.
  { apply (f_equal length) in Ed. rewrite length_drop in Ed. simpl in Ed. lia. }
  apply rmapM_app in H as (y1 & yr & H1 & H2 & ->).
  cbn [rmapM] in H2. destruct (f x) as [y|] eqn:Ef; [|discriminate].
  destruct (rmapM f l2) as [y2|]; [|discriminate].
  cbn [rbind] in H2. apply Ok_inj in H2. subst yr.
  pose proof (rmapM_length _ _ _ H1) as L1.
  assert (Li : length (take i l) = i) by (rewrite length_take; lia).
  rewrite Li in L1.
  exists x, l2, y, y2.
  rewrite (take_app_length' y1 (y :: y2) i (eq_sym L1)).
  split; [now rewrite <- Ed, take_drop|]. auto.
Qed.

(** C7.  Take the image written for any entries, and replace one of the
    four bytes of the magic of entry [i] by a different byte.  The inspector
    then lists the entries before [i] as it did on the intact image, reports
    the invalid magic of entry [i], and stops: nothing else is listed and
    nothing is raised. *)
Theorem corrupt_entry_magic_detected es n size img blocks lines
    (i j : nat) (b : byte) :
  image_of es = Ok (n, size, img) ->
  rmapM entry_block es = Ok blocks ->
  rmapM entry_line es = Ok lines ->
  (i < length es)%nat -> (j < 4)%nat ->
  img !! (entry_offset blocks i + j)%nat <> Some b ->
  inspect_simple_fs img = (ImageInfo n :: lines, Ok tt)
  /\ inspect_simple_fs (<[(entry_offset blocks i + j)%nat := b]> img)
     = (ImageInfo n :: firstn i lines ++ [InvalidFileMagic (Z.of_nat i)],
        Ok tt).
Proof.
  intros Him Eb El Hi Hj Hb.
  split; [now apply (inspect_image_of es n size)|].
  unfold image_of in Him. rewrite Eb in Him. cbn [rbind] in Him.
  destruct (write_image_inv _ _ _ _ Him) as (Hn & _ & _ & _ & cnt & Ec & Hc & ->).
  set (pad := zeros (align_to _ _ - _)) in *. clearbody pad.
  destruct (rmapM_split _ _ _ i Eb Hi)
    as (e & es2 & be & bs2 & Hes & Hbs & Eb1 & Ebe & Li).
  destruct (rmapM_split _ _ _ i El Hi)
    as (e' & es2' & ln & lns2 & _ & _ & El1 & _ & _).
  destruct (entry_block_magic _ _ Ebe) as (tl & -> & Htl).
  unfold entry_offset in *.
  set (bs1 := take i blocks) in *.
  assert (Hbody : concat blocks ++ pad
                  = concat bs1 ++ magic4 ++ (tl ++ concat bs2 ++ pad)).
  { rewrite Hbs at 1. rewrite concat_app. cbn [concat].
    now rewrite <- !app_assoc. }
  assert (L16 : length (MAGIC ++ cnt ++ zeros 4) = 16%nat).
  { rewrite !length_app, Hc. reflexivity. }
  assert (Himg : MAGIC ++ cnt ++ zeros 4 ++ concat blocks ++ pad
                 = ((MAGIC ++ cnt ++ zeros 4) ++ concat bs1)
                   ++ magic4 ++ (tl ++ concat bs2 ++ pad)).
  { rewrite Hbody. now rewrite <- !app_assoc. }
  rewrite Himg in Hb |- *.
  assert (Lpre : length ((MAGIC ++ cnt ++ zeros 4) ++ concat bs1)
                 = (16 + length (concat bs1))%nat).
  { now rewrite length_app, L16. }
  rewrite lookup_app_r in Hb by lia.
  rewrite insert_app_r_alt by lia.
  rewrite Lpre in Hb |- *.
  replace (16 + length (concat bs1) + j - (16 + length (concat bs1)))%nat
    with j in * by lia.
  rewrite lookup_app_l in Hb by (simpl; lia).
  rewrite insert_app_l by (simpl; lia).
  set (m := <[j:=b]> magic4) in *.
  assert (Lm : length m = 4%nat) by (subst m; now rewrite length_insert).
  assert (Hm : le_decode m <> FILE_MAGIC).
  { change FILE_MAGIC with (le_decode magic4). intros E.
    apply le_decode_inj in E; [|now rewrite Lm].
    apply Hb. rewrite <- E at 1. subst m.
    apply list_lookup_insert_eq. simpl. lia. }
  rewrite <- !app_assoc.
  rewrite (inspect_simple_fs_header n cnt _ Ec).
  pose proof (rmapM_length _ _ _ Eb) as Hlen.
  replace (Z.to_nat n)
    with (length (take i es) + S (length es - S i))%nat
    by (rewrite Li; subst n; unfold len; lia).
  rewrite (inspect_entries_blocks (take i es) bs1 (take i lines) _
             (m ++ tl ++ concat bs2 ++ pad) _ 0 Eb1 El1);
    [|simpl; lia|now apply rest_after_header].
  rewrite (inspect_entries_bad_magic _ _ _ m (tl ++ concat bs2 ++ pad));
    [| |exact Lm|rewrite length_app; lia|exact Hm].
  - unfold len. rewrite Li. reflexivity.
  - apply rest_advance; [simpl; lia|now apply rest_after_header].
Qed.

Lemma corrupt_entry_magic_detected_witness :
  inspect_simple_fs odd_image = (ImageInfo 2 :: odd_lines, Ok tt)
  /\ inspect_simple_fs (<[(entry_offset odd_blocks 1 + 2)%nat := x00]> odd_image)
     = (ImageInfo 2 :: firstn 1 odd_lines ++ [InvalidFileMagic 1], Ok tt).
Proof.
  apply (corrupt_entry_magic_detected [bin_entry; odd_entry] 2 1024 odd_image
           odd_blocks odd_lines 1 2 x00).
  - vm_compute. reflexivity.
  - vm_compute. reflexivity.
  - vm_compute. reflexivity.
  - simpl. lia.
  - lia.
  - vm_compute. discriminate.
Defined.

(** ** The collection order *)

Lemma filter_StronglySorted (P : item -> bool) l :
  StronglySorted item_le l -> StronglySorted item_le (List.filter P l).
Proof.
  induction 1 as [|x l Hl IH Hx]; simpl; [constructor|].
  destruct (P x); [|exact IH].
  constructor; [exact IH|].
  apply Forall_forall. intros y Hy. rewrite Forall_forall in Hx.
  apply Hx. apply list_elem_of_In in Hy. apply filter_In in Hy as [Hy _].
  now apply list_elem_of_In.
Qed.

(** [packed_items] is a run of directories followed by a run of files. *)
Lemma packed_items_split root :
  exists dirs files,
    packed_items (Some root) = dirs ++ files
    /\ Forall (fun it => is_dir it = true) dirs
    /\ Forall (fun it => is_file it = true) files
    /\ StronglySorted item_le dirs
    /\ StronglySorted item_le files.
Proof.
  unfold packed_items, collect_files, collect_from.
  rewrite List.filter_app.
  eexists _, _. split; [reflexivity|].
  split; [|split; [|split]].
  - apply Forall_forall. intros it Hit. apply list_elem_of_In in Hit.
    apply filter_In in Hit as [Hit _]. now apply filter_In in Hit as [_ Hit].
  - apply Forall_forall. intros it Hit. apply list_elem_of_In in Hit.
    apply filter_In in Hit as [Hit _]. apply filter_In in Hit as [_ Hit].
    apply andb_true_iff in Hit as [Hit _].
    now apply andb_true_iff in Hit as [Hit _].
  - apply filter_StronglySorted, filter_StronglySorted, sorted_StronglySorted.
  - apply filter_StronglySorted, filter_StronglySorted, sorted_StronglySorted.
Qed.

Lemma is_file_not_dir it : is_file it = true -> is_dir it = false.
Proof. unfold is_file, is_dir. now destruct (snd it). Qed.

(** C6 (amended).  In the image of a successful run the entries are those
    of [packed_items], in that order: first directories only, then files
    only, each run in the order of the paths, compared component by
    component ([path_ltb]).  So a directory entry always lies before a file
    entry, in particular when its path is a prefix of the file's path. *)
Theorem directories_precede_files root n size img :
  make_simple_fs (Some root) = Ok (n, size, img) ->
  inspect_simple_fs img
  = (ImageInfo n :: map item_line (packed_items (Some root)), Ok tt)
  /\ (exists dirs files,
        packed_items (Some root) = dirs ++ files
        /\ Forall (fun it => is_dir it = true) dirs
        /\ Forall (fun it => is_file it = true) files
        /\ StronglySorted item_le dirs
        /\ StronglySorted item_le files)
  /\ (forall (i j : nat) d f q,
        packed_items (Some root) !! i = Some d ->
        packed_items (Some root) !! j = Some f ->
        is_dir d = true -> is_file f = true -> fst f = fst d ++ q ->
        (i < j)%nat).
Proof.
  intros H. split; [apply (inspect_make_simple_fs _ _ _ _ H)|].
  destruct (packed_items_split root) as (dirs & files & E & Hd & Hf & Sd & Sf).
  split; [now exists dirs, files|].
  intros i j d f q Hi Hj Dd Ff _. rewrite E in Hi, Hj.
  assert (Li : (i < length dirs)%nat).
  { destruct (decide (i < length dirs)%nat) as [L|L]; [exact L|].
    rewrite lookup_app_r in Hi by lia.
    rewrite Forall_forall in Hf.
    apply list_elem_of_lookup_2, Hf, is_file_not_dir in Hi. congruence. }
  assert (Lj : (length dirs <= j)%nat).
  { destruct (decide (length dirs <= j)%nat) as [L|L]; [exact L|].
    rewrite lookup_app_l in Hj by lia.
    rewrite Forall_forall in Hd.
    apply list_elem_of_lookup_2, Hd in Hj.
    apply is_file_not_dir in Ff. congruence. }
  lia.
Qed.

Lemma directories_precede_files_witness :
  inspect_simple_fs example_image
  = (ImageInfo 2 :: map item_line (packed_items (Some example_tree)), Ok tt)
  /\ (exists dirs files,
        packed_items (Some example_tree) = dirs ++ files
        /\ Forall (fun it => is_dir it = true) dirs
        /\ Forall (fun it => is_file it = true) files
        /\ StronglySorted item_le dirs
        /\ StronglySorted item_le files)
  /\ (forall (i j : nat) d f q,
        packed_items (Some example_tree) !! i = Some d ->
        packed_items (Some example_tree) !! j = Some f ->
        is_dir d = true -> is_file f = true -> fst f = fst d ++ q ->
        (i < j)%nat).
Proof.
  apply (directories_precede_files example_tree 2 1024).
  vm_compute. reflexivity.
Defined.

(** C8.  In a tree where no directory holds two entries of the same name,
    the outcome of packing (the image, the returned pair, or the exception)
    does not depend on the order in which the two directory traversals list
    the entries: any two runs over the same tree, with whatever listings,
    agree byte for byte. *)
Theorem pack_is_deterministic root l1 l2 l1' l2' :
  wf_node root = true ->
  l1 ≡ₚ rglob [] root -> l2 ≡ₚ rglob [] root ->
  l1' ≡ₚ rglob [] root -> l2' ≡ₚ rglob [] root ->
  make_simple_fs_from (collect_from l1 l2)
  = make_simple_fs_from (collect_from l1' l2')
  /\ make_simple_fs_from (collect_from l1 l2) = make_simple_fs (Some root).
Proof.
  intros Hwf H1 H2 H1' H2'.
  pose proof (rglob_NoDup root [] Hwf) as Hnd.
  assert (S : forall l, l ≡ₚ rglob [] root -> sorted l = sorted (rglob [] root)).
  { intros l Hl. apply sorted_unique; [|exact Hl].
    assert (map fst l ≡ₚ map fst (rglob [] root)) as ->
      by now apply Permutation_map.
    exact Hnd. }
  unfold make_simple_fs, collect_files, collect_from.
  now rewrite (S l1 H1), (S l2 H2), (S l1' H1'), (S l2' H2').
Qed.

Lemma pack_is_deterministic_witness :
  make_simple_fs_from
    (collect_from (rglob [] example_tree) example_listing_rev)
  = make_simple_fs_from
      (collect_from example_listing_rev (rglob [] example_tree))
  /\ make_simple_fs_from
       (collect_from (rglob [] example_tree) example_listing_rev)
     = make_simple_fs (Some example_tree).
Proof.
  apply (pack_is_deterministic example_tree).
  - vm_compute. reflexivity.
  - reflexivity.
  - symmetry. apply Permutation_rev.
  - symmetry. apply Permutation_rev.
  - reflexivity.
Defined.

(** ** The filters *)

Lemma rfind_absent c s : ~ In c s -> rfind c s = -1.
Proof.
  induction s as [|x s IH]; simpl; [reflexivity|]. intros H.
  rewrite IH by tauto. cbn [Z.leb Z.compare].
  destruct (x =? c) eqn:E; [|reflexivity]. apply Z.eqb_eq in E. tauto.
Qed.

Lemma rfind_last c stem e :
  ~ In c e -> rfind c (stem ++ c :: e) = len stem.
Proof.
  intros He. induction stem as [|x stem IH]; cbn [app rfind].
  - rewrite (rfind_absent c e He). cbn [Z.leb Z.compare].
    now rewrite Z.eqb_refl.
  - rewrite IH. pose proof (len_nonneg stem) as Hs.
    destruct (0 <=? len stem) eqn:E; [|apply Z.leb_gt in E; lia].
    unfold len. simpl length. lia.
Qed.

(** A name that ends with [.e] either is [.e] itself, a hidden name, or has
    the suffix [.e]. *)
Lemma path_suffix_ext p stem e :
  path_name p = stem ++ 46 :: e -> ~ In 46 e -> e <> [] -> stem <> [] ->
  path_suffix p = 46 :: e.
Proof.
  intros Hn He Hne Hs. unfold path_suffix. rewrite Hn.
  rewrite (rfind_last 46 stem e He).
  assert (L : len (stem ++ 46 :: e) = len stem + 1 + len e).
  { rewrite len_app. unfold len. simpl length. lia. }
  assert (0 < len stem) by (destruct stem; [contradiction|unfold len; simpl; lia]).
  assert (0 < len e) by (destruct e; [contradiction|unfold len; simpl; lia]).
  replace ((0 <? len stem) && (len stem <? len (stem ++ 46 :: e) - 1)) with true
    by (symmetry; apply andb_true_iff; split; apply Z.ltb_lt; lia).
  unfold len. rewrite Nat2Z.id. apply drop_app_length.
Qed.

Lemma artifact_name_filtered p :
  artifact_name (path_name p) ->
  startswith_dot (path_name p) = true
  \/ str_in (path_suffix p) artifact_exts = true.
Proof.
  intros (ext & Hext & stem & Hn).
  assert (Hform : exists e, pystr_of ext = 46 :: e /\ ~ In 46 e /\ e <> []
                            /\ str_in (46 :: e) artifact_exts = true).
  { unfold artifact_exts in Hext. simpl in Hext.
    destruct Hext as [<-|[<-|[<-|[<-|[]]]]]; eexists;
      (split; [reflexivity|]);
      (split; [simpl; lia|]);
      (split; [discriminate | vm_compute; reflexivity]). }
  destruct Hform as (e & He & Hdot & Hne & Hin). rewrite He in Hn.
  destruct stem as [|x stem].
  - left. rewrite Hn. reflexivity.
  - right. rewrite (path_suffix_ext p (x :: stem) e Hn Hdot Hne); [exact Hin|].
    discriminate.
Qed.

Lemma packed_items_In src it :
  In it (packed_items src) ->
  In it (collect_files src) /\ emitted it = true.
Proof. unfold packed_items. apply filter_In. Qed.

Lemma collect_files_file root it :
  In it (collect_files (Some root)) -> is_file it = true ->
  str_in (path_suffix (fst it)) artifact_exts = false.
Proof.
  unfold collect_files, collect_from. intros Hin Hf.
  apply in_app_or in Hin as [Hin|Hin]; apply filter_In in Hin as [_ Hin].
  - apply is_file_not_dir in Hf. congruence.
  - apply andb_true_iff in Hin as [Hin _].
    apply andb_true_iff in Hin as [_ Hin]. now apply negb_true_iff in Hin.
Qed.

Lemma pack_file_hidden it :
  startswith_dot (path_name (fst it)) = true -> pack_file it = Ok [].
Proof. unfold pack_file. now intros ->. Qed.

(** What the two name filters do remove.  Whatever the source, the
    entries of a written image come from items whose own name (the final
    component of the path, the only one the filters look at) does not begin
    with a dot and, for files, does not end with one of the extensions
    [.d], [.o], [.a], [.rlib].  Such items raise no error: an item whose own
    name begins with a dot makes [pack_file] return the empty bytes, and a
    file with such an extension either has such a name or is not collected
    at all. *)
Theorem hidden_and_artifacts_not_packed src n size img :
  make_simple_fs src = Ok (n, size, img) ->
  inspect_simple_fs img
  = (ImageInfo n :: map item_line (packed_items src), Ok tt)
  /\ Forall (fun it =>
               startswith_dot (path_name (fst it)) = false
               /\ (is_file it = true -> ~ artifact_name (path_name (fst it))))
            (packed_items src)
  /\ (forall it, startswith_dot (path_name (fst it)) = true ->
                 pack_file it = Ok [])
  /\ (forall it, is_file it = true -> artifact_name (path_name (fst it)) ->
                 pack_file it = Ok [] \/ ~ In it (collect_files src)).
Proof.
  intros H. split; [|split; [|split]].
  - destruct src as [root|]; [apply (inspect_make_simple_fs _ _ _ _ H)|].
    vm_compute in H. apply Ok_inj in H.
    apply pair_equal_spec in H as [H <-]. apply pair_equal_spec in H as [<- _].
    vm_compute. reflexivity.
  - apply Forall_forall. intros it Hit. apply list_elem_of_In in Hit.
    apply packed_items_In in Hit as [Hc He].
    assert (Hh : startswith_dot (path_name (fst it)) = false).
    { unfold emitted, skipped_name in He.
      apply andb_true_iff in He as [He _]. apply negb_true_iff in He.
      now apply orb_false_iff in He as [He _]. }
    split; [exact Hh|]. intros Hf Ha.
    destruct src as [root|]; [|contradiction].
    destruct (artifact_name_filtered _ Ha) as [Hd|Hs]; [congruence|].
    rewrite (collect_files_file root it Hc Hf) in Hs. discriminate.
  - apply pack_file_hidden.
  - intros it Hf Ha.
    destruct (artifact_name_filtered _ Ha) as [Hd|Hs].
    + left. now apply pack_file_hidden.
    + right. intros Hc. destruct src as [root|]; [|contradiction].
      rewrite (collect_files_file root it Hc Hf) in Hs. discriminate.
Qed.

Lemma hidden_and_artifacts_not_packed_witness :
  inspect_simple_fs cluttered_image
  = (ImageInfo 3 :: map item_line (packed_items (Some cluttered_tree)), Ok tt)
  /\ Forall (fun it =>
               startswith_dot (path_name (fst it)) = false
               /\ (is_file it = true -> ~ artifact_name (path_name (fst it))))
            (packed_items (Some cluttered_tree))
  /\ (forall it, startswith_dot (path_name (fst it)) = true ->
                 pack_file it = Ok [])
  /\ (forall it, is_file it = true -> artifact_name (path_name (fst it)) ->
                 pack_file it = Ok []
                 \/ ~ In it (collect_files (Some cluttered_tree))).
Proof.
  apply (hidden_and_artifacts_not_packed (Some cluttered_tree) 3 1536).
  vm_compute. reflexivity.
Defined.

(** C5 (defect in the code).  Line 54 tests the final component of the
    path only, although line 53 announces that hidden files are skipped:
    the hidden directory [.git] is dropped, yet its file [config] is
    packed, and the image lists an entry named [.git/config] whose
    directory has no entry. *)
Lemma hidden_directory_content_is_packed :
  make_simple_fs (Some cluttered_tree) = Ok (3, 1536, cluttered_image)
  /\ In (EntryInfo "FILE" (pystr_of ".git/config") 5 420)
        (fst (inspect_simple_fs cluttered_image))
  /\ ~ Forall (fun name => startswith_dot name = false)
              (line_names (fst (inspect_simple_fs cluttered_image))).
Proof.
  split; [vm_compute; reflexivity|]. split.
  - vm_compute. tauto.
  - intros H. vm_compute in H.
    apply Forall_cons in H as [_ H]. apply Forall_cons in H as [H _].
    discriminate.
Qed.

(** C6 (as stated, fails).  The directories [a], [a/c] and [a-b] are stored
    in this order, the order of the component lists; as strings, [a-b]
    comes before [a/c]. *)
Lemma directory_names_not_in_string_order :
  make_simple_fs (Some dash_tree) = Ok (3, 512, dash_image)
  /\ line_names (fst (inspect_simple_fs dash_image))
     = [pystr_of "a"; pystr_of "a/c"; pystr_of "a-b"]
  /\ str_ltb (pystr_of "a-b") (pystr_of "a/c") = true
  /\ ~ StronglySorted (fun x y => str_ltb y x = false)
         (line_names (fst (inspect_simple_fs dash_image))).
Proof.
  split; [vm_compute; reflexivity|].
  split; [vm_compute; reflexivity|].
  split; [vm_compute; reflexivity|].
  intros H. vm_compute in H.
  apply StronglySorted_cons in H as [_ H].
  apply StronglySorted_cons in H as [H _].
  apply Forall_cons in H as [H _]. discriminate.
Qed.

(** ** What is collected and packed *)

Lemma collect_files_In root it :
  In it (collect_files (Some root))
  <-> In it (rglob [] root) /\ collected it = true.
Proof.
  unfold collect_files, collect_from, collected.
  rewrite in_app_iff, !filter_In.
  assert (S : In it (sorted (rglob [] root)) <-> In it (rglob [] root)).
  { rewrite <- !list_elem_of_In. now rewrite sorted_Permutation. }
  rewrite !S. rewrite orb_true_iff. unfold artifact_exts. tauto.
Qed.


Lemma replace_backslash_length s :
  length (replace_backslash s) = length s.
Proof. unfold replace_backslash. apply length_map. Qed.

Lemma replace_backslash_scalar s :
  Forall scalar s -> Forall scalar (replace_backslash s).
Proof.
  unfold replace_backslash. induction 1 as [|c s Hc _ IH]; simpl; constructor.
  - destruct (c =? 92); [unfold scalar; lia | exact Hc].
  - exact IH.
Qed.




(** ** When packing succeeds *)

Lemma pack_file_total it : packable it -> exists block, pack_file it = Ok block.
Proof.
  unfold packable, pack_file, skipped_name. intros [Hs | (Hsc & Hn & Hd)].
  - rewrite Hs. eauto.
  - destruct (startswith_dot _ || str_in _ _); [eauto|].
    destruct (utf8_encode_ok _ (replace_backslash_scalar _ Hsc)) as (nb & -> & Hl).
    rewrite replace_backslash_length in Hl. cbn [rbind].
    assert (Hnb : uint32 (len nb)) by (unfold uint32, len in *; lia).
    unfold item_data in Hd.
    destruct (snd it) as [m data | m cs | m]; [| |eauto].
    + apply pack_entry_ok; [exact Hnb | | |]; unfold uint32, len in *;
        unfold FILE_TYPE_FILE; lia.
    + apply pack_entry_ok; [exact Hnb | | |]; unfold uint32, len in *;
        unfold FILE_TYPE_DIR; simpl; lia.
Qed.

Lemma pack_all_total files :
  Forall packable files ->
  exists blocks, pack_all files = Ok blocks
                 /\ (length blocks <= length files)%nat.
Proof.
  induction 1 as [|it files Hit _ (blocks & E & Hl)]; cbn [pack_all].
  - exists []. auto.
  - destruct (pack_file_total it Hit) as (block & ->). rewrite E.
    cbn [rbind]. destruct block; eexists; (split; [reflexivity|]); simpl; lia.
Qed.



(** * Packing, then inspecting *)

(** C1 (defect in the code).  Line 57 turns every backslash of the name
    into a slash, for paths written by Windows; in a POSIX file name the
    backslash is an ordinary character, and it is rewritten all the same.
    The file [a\b] is not filtered, yet the listing of the image has no
    entry whose name is its relative path: the entry is named [a/b]. *)
Lemma backslash_name_is_rewritten :
  make_simple_fs (Some backslash_tree) = Ok (1, 1024, backslash_image)
  /\ In backslash_item (rglob [] backslash_tree)
  /\ non_filtered backslash_item = true
  /\ line_names (fst (inspect_simple_fs backslash_image)) = [[97; 47; 98]]
  /\ ~ In (path_str (fst backslash_item))
          (line_names (fst (inspect_simple_fs backslash_image))).
Proof.
  split; [vm_compute; reflexivity|].
  split; [vm_compute; tauto|].
  split; [vm_compute; reflexivity|].
  split; [vm_compute; reflexivity|].
  vm_compute. intros [H|[]]. discriminate.
Qed.

(** The rewriting of line 57 makes two entries of one tree share a name:
    next to the directory [a] with its file [b], the file [a\b] is stored
    as a second [a/b]. *)
Lemma backslash_names_collide :
  exists img,
    make_simple_fs (Some collision_tree) = Ok (3, 1536, img)
    /\ fst (inspect_simple_fs img)
       = [ImageInfo 3;
          EntryInfo "DIR " (pystr_of "a") 0 493;
          EntryInfo "FILE" (pystr_of "a/b") 5 420;
          EntryInfo "FILE" (pystr_of "a/b") 1 420].
Proof. eexists. split; vm_compute; reflexivity. Qed.



(** * Further properties of the code *)

(** ** align_to *)

(** For a positive alignment, [align_to n a] is the least multiple of [a]
    that is not below [n]. *)
Theorem align_to_least n a :
  0 < a ->
  n <= align_to n a
  /\ (align_to n a) mod a = 0
  /\ forall m, n <= m -> m mod a = 0 -> align_to n a <= m.
Proof.
  intros Ha. pose proof (align_to_bounds n a Ha) as B.
  split; [lia|]. split; [now apply align_to_multiple|].
  intros m Hm Hmod. pose proof (align_to_multiple n a Ha) as Hal.
  apply Z.mod_divide in Hmod; [|lia]. destruct Hmod as [k ->].
  apply Z.mod_divide in Hal; [|lia]. destruct Hal as [j Hj].
  rewrite Hj in *.
  destruct (Z_le_gt_dec j k) as [L|G].
  - apply Z.mul_le_mono_nonneg_r; lia.
  - assert ((k + 1) * a <= j * a) by (apply Z.mul_le_mono_nonneg_r; lia).
    lia.
Qed.

Lemma align_to_least_witness :
  13 <= align_to 13 4
  /\ (align_to 13 4) mod 4 = 0
  /\ forall m, 13 <= m -> m mod 4 = 0 -> align_to 13 4 <= m.
Proof. apply (align_to_least 13 4). lia. Defined.

(** ** The image of an existing source *)

Lemma make_simple_fs_layout_witness :
  1024 = len example_image /\ 1024 mod BLOCK_SIZE = 0
  /\ exists cnt es blocks,
      pack_I 2 = Ok cnt /\ length cnt = 4%nat
      /\ rmapM entry_of (packed_items (Some example_tree)) = Ok es
      /\ Forall2 (fun e block =>
                    entry_block e = Ok block
                    /\ len block = 32 + align_to (len (e_name e)) 4
                                   + align_to (len (e_data e)) BLOCK_SIZE)
                 es blocks
      /\ example_image = MAGIC ++ cnt ++ zeros 4 ++ concat blocks
                         ++ zeros (1024 - (16 + len (concat blocks))).
Proof.
  apply (make_simple_fs_layout example_tree 2 1024 example_image).
  vm_compute. reflexivity.
Defined.

(** When nothing of an existing source is packed (an empty directory, a
    directory that only holds filtered entries, or a source that is not a
    directory), the image is the header with entry count 0, padded with
    zero bytes to one block of 512 bytes. *)
Theorem nothing_to_pack_gives_one_block root :
  packed_items (Some root) = [] ->
  Forall packable (collect_files (Some root)) ->
  make_simple_fs (Some root) = Ok (0, 512, MAGIC ++ zeros 504).
Proof.
  intros He Hp. unfold make_simple_fs, make_simple_fs_from.
  destruct (pack_all_total _ Hp) as (blocks & E & _). rewrite E.
  destruct (pack_all_entries _ _ E) as (es & Ees & Ebs).
  fold (packed_items (Some root)) in Ees. rewrite He in Ees.
  apply Ok_inj in Ees. subst es. apply Ok_inj in Ebs. subst blocks.
  reflexivity.
Qed.

Lemma nothing_to_pack_gives_one_block_witness :
  make_simple_fs (Some filtered_tree) = Ok (0, 512, MAGIC ++ zeros 504).
Proof.
  apply (nothing_to_pack_gives_one_block filtered_tree).
  - vm_compute. reflexivity.
  - let files := eval vm_compute in (collect_files (Some filtered_tree)) in
    change (collect_files (Some filtered_tree)) with files.
    repeat (apply Forall_cons; split); try exact (proj2 (Forall_nil _) I).
    all: unfold packable; left; vm_compute; reflexivity.
Defined.

(** ** Exceptions while packing *)

(** An item whose name is not skipped and whose path holds a code point
    that is not a scalar value (a lone surrogate) makes [pack_file] raise
    UnicodeEncodeError, whether it is a file, a directory or neither. *)
Theorem pack_file_unencodable_name_raises it :
  skipped_name it = false ->
  ~ Forall scalar (path_str (fst it)) ->
  pack_file it = Raise UnicodeEncodeError.
Proof.
  intros Hs Hn. unfold pack_file. unfold skipped_name in Hs. rewrite Hs.
  rewrite utf8_encode_raises; [reflexivity|].
  intros HF. apply Hn. clear -HF. unfold replace_backslash in HF.
  induction (path_str (fst it)) as [|c s IH]; [constructor|].
  simpl in HF. apply Forall_cons in HF as [Hc HF].
  constructor; [|now apply IH].
  destruct (c =? 92) eqn:E; [apply Z.eqb_eq in E; unfold scalar; lia | exact Hc].
Qed.

Lemma pack_file_unencodable_name_raises_witness :
  pack_file surrogate_item = Raise UnicodeEncodeError.
Proof.
  apply (pack_file_unencodable_name_raises surrogate_item).
  - vm_compute. reflexivity.
  - cbn [fst surrogate_item path_str]. intros H.
    apply Forall_cons in H as [_ H]. apply Forall_cons in H as [H _].
    unfold scalar in H. lia.
Defined.

Lemma pack_all_raises files it e :
  In it files -> pack_file it = Raise e ->
  exists e', pack_all files = Raise e'.
Proof.
  induction files as [|x files IH]; [contradiction|].
  intros [->|Hin] He; cbn [pack_all].
  - rewrite He. eauto.
  - destruct (pack_file x) as [b|ex]; [|eauto]. cbn [rbind].
    destruct (IH Hin He) as (e' & ->). eauto.
Qed.

(** Packing is all or nothing: if [pack_file] raises for any collected
    item, [make_simple_fs] raises and returns no image. *)
Theorem make_simple_fs_propagates root it e :
  In it (collect_files (Some root)) -> pack_file it = Raise e ->
  exists e', make_simple_fs (Some root) = Raise e'.
Proof.
  intros Hin He. unfold make_simple_fs, make_simple_fs_from.
  destruct (pack_all_raises _ _ _ Hin He) as (e' & ->). eauto.
Qed.

Lemma make_simple_fs_propagates_witness :
  exists e', make_simple_fs (Some surrogate_tree) = Raise e'.
Proof.
  apply (make_simple_fs_propagates surrogate_tree surrogate_item
           UnicodeEncodeError).
  - vm_compute. tauto.
  - vm_compute. reflexivity.
Defined.

(** ** The inspector on images of any kind *)

(** An image that does not begin with the 8 magic bytes (an empty or
    shorter file included) is reported with the bytes read, nothing else is
    printed and nothing is raised. *)
Theorem inspect_invalid_magic img :
  firstn 8 img <> MAGIC ->
  inspect_simple_fs img = ([InvalidMagic (firstn 8 img)], Ok tt).
Proof.
  intros H. unfold inspect_simple_fs, f_read. cbn [pos content].
  change (Z.to_nat 0) with 0%nat. change (Z.to_nat 8) with 8%nat.
  rewrite drop_0. now rewrite bool_decide_eq_false_2.
Qed.

Lemma inspect_invalid_magic_witness :
  inspect_simple_fs [x52; x41; x4d] = ([InvalidMagic [x52; x41; x4d]], Ok tt).
Proof.
  apply (inspect_invalid_magic [x52; x41; x4d]). vm_compute. discriminate.
Defined.

(** An image that ends within the entry count raises struct.error before
    anything is printed. *)
Theorem inspect_truncated_count r :
  (length r < 4)%nat ->
  inspect_simple_fs (MAGIC ++ r) = ([], Raise StructError).
Proof.
  intros H. unfold inspect_simple_fs.
  set (f0 := {| content := MAGIC ++ r; pos := 0 |}).
  assert (R0 : rest f0 = MAGIC ++ r) by reflexivity.
  rewrite (f_read_rest 8 f0 MAGIC r R0 eq_refl).
  rewrite bool_decide_eq_true_2 by reflexivity. cbn [negb].
  assert (R1 : rest (advance 8 f0) = r)
    by (apply (rest_advance f0 MAGIC); [simpl; lia | exact R0]).
  unfold f_read. fold (rest (advance 8 f0)). rewrite R1.
  change (Z.to_nat 4) with 4%nat. rewrite take_ge by lia.
  unfold struct_unpack.
  destruct (Nat.eqb (length r) (4 * 1)) eqn:E; [|reflexivity].
  apply Nat.eqb_eq in E. lia.
Qed.

Lemma inspect_truncated_count_witness :
  inspect_simple_fs (MAGIC ++ [x01; x00]) = ([], Raise StructError).
Proof. apply (inspect_truncated_count [x01; x00]). simpl. lia. Defined.

Lemma inspect_simple_fs_header_any n cnt r body :
  pack_I n = Ok cnt -> length r = 4%nat ->
  inspect_simple_fs (MAGIC ++ cnt ++ r ++ body) =
  (let '(out, res) :=
     inspect_entries (Z.to_nat n) 0
       {| content := MAGIC ++ cnt ++ r ++ body; pos := 16 |} in
   (ImageInfo n :: out, res))
  /\ rest {| content := MAGIC ++ cnt ++ r ++ body; pos := 16 |} = body.
Proof.
  intros Ec Hr.
  assert (Hn : uint32 n).
  { destruct (decide (uint32 n)) as [H|H]; [exact H|].
    rewrite pack_I_raises in Ec by exact H. discriminate. }
  destruct (pack_I_ok n Hn) as (cnt' & Ec' & Hl & Hd).
  rewrite Ec in Ec'. apply Ok_inj in Ec'. subst cnt'.
  split.
  - unfold inspect_simple_fs.
    set (f0 := {| content := MAGIC ++ cnt ++ r ++ body; pos := 0 |}).
    assert (R0 : rest f0 = MAGIC ++ cnt ++ r ++ body) by reflexivity.
    rewrite (f_read_rest 8 f0 MAGIC _ R0 eq_refl).
    rewrite bool_decide_eq_true_2 by reflexivity. cbn [negb].
    assert (R1 : rest (advance 8 f0) = cnt ++ r ++ body)
      by (apply (rest_advance f0 MAGIC); [simpl; lia | exact R0]).
    assert (L4 : len cnt = 4) by (unfold len; lia).
    rewrite (f_read_rest 4 (advance 8 f0) cnt _ R1 L4).
    assert (U : struct_unpack 1 cnt = Ok [n]).
    { apply (struct_unpack_pack [n]). cbn [struct_pack]. rewrite Ec.
      cbn [rbind]. now rewrite app_nil_r. }
    rewrite U. cbn [nth].
    assert (R2 : rest (advance 4 (advance 8 f0)) = r ++ body).
    { pose proof (rest_advance (advance 8 f0) cnt _ ltac:(simpl; lia) R1) as R.
      now rewrite L4 in R. }
    assert (L4r : len r = 4) by (unfold len; lia).
    rewrite (f_read_rest 4 _ r _ R2 L4r). reflexivity.
  - unfold rest. cbn [pos content]. change (Z.to_nat 16) with 16%nat.
    replace (MAGIC ++ cnt ++ r ++ body)
      with ((MAGIC ++ cnt ++ r) ++ body) by now rewrite <- !app_assoc.
    apply drop_app_length'. rewrite !length_app, Hl, Hr. reflexivity.
Qed.

(** The inspector does not look at the reserved field of the image header,
    nor at anything that follows the last entry: whatever these bytes are,
    the listing is that of the entries, and nothing is raised. *)
Theorem inspect_ignores_reserved_and_trailing es blocks lines cnt r tail :
  rmapM entry_block es = Ok blocks ->
  rmapM entry_line es = Ok lines ->
  pack_I (len es) = Ok cnt -> length r = 4%nat ->
  inspect_simple_fs (MAGIC ++ cnt ++ r ++ concat blocks ++ tail)
  = (ImageInfo (len es) :: lines, Ok tt).
Proof.
  intros Eb El Ec Hr.
  destruct (inspect_simple_fs_header_any _ _ r (concat blocks ++ tail) Ec Hr)
    as [-> R].
  replace (Z.to_nat (len es)) with (length es + 0)%nat by (unfold len; lia).
  rewrite (inspect_entries_blocks es blocks lines _ tail 0%nat 0 Eb El);
    [|simpl; lia|exact R].
  cbn [inspect_entries]. now rewrite app_nil_r.
Qed.

Lemma inspect_ignores_reserved_and_trailing_witness :
  inspect_simple_fs
    (MAGIC ++ [x02; x00; x00; x00] ++ [xde; xad; xbe; xef]
     ++ concat odd_blocks ++ [xff; xff; xff])
  = (ImageInfo (len [bin_entry; odd_entry]) :: odd_lines, Ok tt).
Proof.
  apply (inspect_ignores_reserved_and_trailing [bin_entry; odd_entry]).
  - vm_compute. reflexivity.
  - vm_compute. reflexivity.
  - vm_compute. reflexivity.
  - reflexivity.
Defined.

Lemma utf8_decode_raises_aux (k : nat) :
  forall bs err, (length bs <= k)%nat ->
                 utf8_decode bs = Raise err -> err = UnicodeDecodeError.
Proof.
  induction k as [|k IH]; intros bs err Hl H.
  - destruct bs; [discriminate | simpl in Hl; lia].
  - destruct bs as [|b0 r0]; [discriminate|].
    cbn [utf8_decode] in H. cbv zeta in H.
    repeat match type of H with
           | context [if ?c then _ else _] => destruct c
           | context [match ?x with [] => _ | _ :: _ => _ end] =>
               is_var x; destruct x
           end;
      try congruence;
      match type of H with
      | rmap _ (utf8_decode ?r) = _ =>
          destruct (utf8_decode r) as [s|e'] eqn:E; [discriminate|];
          cbn in H; apply (IH r); [simpl in Hl |- *; lia|];
          rewrite E; congruence
      end.
Qed.

Lemma utf8_decode_raises bs err :
  utf8_decode bs = Raise err -> err = UnicodeDecodeError.
Proof. apply (utf8_decode_raises_aux (length bs)). lia. Qed.

Lemma inspect_entries_short k i f :
  (length (rest f) < 20)%nat ->
  inspect_entries (S k) i f = ([], Raise StructError).
Proof.
  intros H. rewrite inspect_entries_S. unfold f_read. fold (rest f).
  change (Z.to_nat 32) with 32%nat.
  rewrite take_take. change (20 `min` 32)%nat with 20%nat.
  unfold struct_unpack. rewrite length_take.
  destruct (Nat.eqb (20 `min` length (rest f)) (4 * 5)) eqn:E; [|reflexivity].
  apply Nat.eqb_eq in E. lia.
Qed.

(** When the entry count promises more entries than the image holds and
    fewer than 20 bytes follow the last one, the inspector lists the entries
    that are there and then raises struct.error. *)
Theorem inspect_truncated_entry es blocks lines n cnt r tail :
  rmapM entry_block es = Ok blocks ->
  rmapM entry_line es = Ok lines ->
  pack_I n = Ok cnt -> length r = 4%nat ->
  len es < n -> (length tail < 20)%nat ->
  inspect_simple_fs (MAGIC ++ cnt ++ r ++ concat blocks ++ tail)
  = (ImageInfo n :: lines, Raise StructError).
Proof.
  intros Eb El Ec Hr Hn Ht.
  destruct (inspect_simple_fs_header_any _ _ r (concat blocks ++ tail) Ec Hr)
    as [-> R].
  replace (Z.to_nat n)
    with (length es + S (Z.to_nat n - S (length es)))%nat
    by (unfold len in Hn; lia).
  rewrite (inspect_entries_blocks es blocks lines _ tail _ 0 Eb El);
    [|simpl; lia|exact R].
  rewrite inspect_entries_short.
  - now rewrite app_nil_r.
  - rewrite (rest_advance _ (concat blocks) tail); [exact Ht|simpl; lia|exact R].
Qed.

Lemma inspect_truncated_entry_witness :
  inspect_simple_fs
    (MAGIC ++ [x03; x00; x00; x00] ++ zeros 4 ++ concat odd_blocks ++ zeros 19)
  = (ImageInfo 3 :: odd_lines, Raise StructError).
Proof.
  apply (inspect_truncated_entry [bin_entry; odd_entry]).
  - vm_compute. reflexivity.
  - vm_compute. reflexivity.
  - vm_compute. reflexivity.
  - reflexivity.
  - vm_compute. reflexivity.
  - simpl. lia.
Defined.

Lemma inspect_entries_bad_name n i f e block err tl :
  entry_block e = Ok block -> utf8_decode (e_name e) = Raise err ->
  0 <= pos f -> rest f = block ++ tl ->
  inspect_entries (S n) i f = ([], Raise err).
Proof.
  intros Hb En Hp Hr. unfold entry_block in Hb.
  destruct (pack_entry_inv _ _ _ _ _ Hb) as (fields & Ef & Hl & ->).
  pose proof (align_to_bounds (len (e_name e)) 4 ltac:(lia)) as Ba.
  set (npad := zeros (align_to (len (e_name e)) 4 - len (e_name e))) in *.
  set (dblock := e_data e ++
         zeros (align_to (len (e_data e)) BLOCK_SIZE - len (e_data e))) in *.
  rewrite inspect_entries_S.
  rewrite (f_read_rest 32 f (fields ++ zeros 12)
             ((e_name e ++ npad) ++ dblock ++ tl)).
  2:{ rewrite Hr. now rewrite <- !app_assoc. }
  2:{ rewrite len_app. unfold len at 1. rewrite Hl. reflexivity. }
  rewrite (take_app_length' fields (zeros 12) 20 (eq_sym Hl)).
  pose proof (struct_unpack_pack _ _ Ef) as U. simpl length in U. rewrite U.
  cbn [nth]. rewrite Z.eqb_refl. cbn [negb].
  assert (R1 : rest (advance 32 f) = (e_name e ++ npad) ++ dblock ++ tl).
  { replace 32 with (len (fields ++ zeros 12))
      by (rewrite len_app; unfold len at 1; rewrite Hl; reflexivity).
    apply rest_advance; [exact Hp|]. rewrite Hr. now rewrite <- !app_assoc. }
  assert (Ln : len (e_name e ++ npad) = align_to (len (e_name e)) 4).
  { subst npad. rewrite len_app, len_zeros by lia. lia. }
  rewrite (f_read_rest _ (advance 32 f) _ _ R1 Ln).
  rewrite (take_app_length' (e_name e) npad) by (unfold len; lia).
  now rewrite En.
Qed.

(** An entry whose name is not valid UTF-8 makes the inspector raise
    UnicodeDecodeError: the entries before it are listed, it and the
    entries after it are not. *)
Theorem inspect_undecodable_name es blocks lines e block n cnt r tail :
  rmapM entry_block es = Ok blocks ->
  rmapM entry_line es = Ok lines ->
  entry_block e = Ok block ->
  (forall name, utf8_decode (e_name e) <> Ok name) ->
  pack_I n = Ok cnt -> length r = 4%nat -> len es < n ->
  inspect_simple_fs (MAGIC ++ cnt ++ r ++ concat blocks ++ block ++ tail)
  = (ImageInfo n :: lines, Raise UnicodeDecodeError).
Proof.
  intros Eb El Ebk Hname Ec Hr Hn.
  assert (En : utf8_decode (e_name e) = Raise UnicodeDecodeError).
  { destruct (utf8_decode (e_name e)) as [name|err] eqn:E.
    - now destruct (Hname name).
    - now rewrite (utf8_decode_raises _ _ E). }
  destruct (inspect_simple_fs_header_any _ _ r
              (concat blocks ++ block ++ tail) Ec Hr) as [-> R].
  replace (Z.to_nat n)
    with (length es + S (Z.to_nat n - S (length es)))%nat
    by (unfold len in Hn; lia).
  rewrite (inspect_entries_blocks es blocks lines _ (block ++ tail) _ 0 Eb El);
    [|simpl; lia|exact R].
  rewrite (inspect_entries_bad_name _ _ _ e block UnicodeDecodeError tail Ebk En).
  - now rewrite app_nil_r.
  - rewrite pos_advance. pose proof (len_nonneg (concat blocks)). simpl. lia.
  - apply rest_advance; [simpl; lia|exact R].
Qed.

Lemma inspect_undecodable_name_witness :
  inspect_simple_fs
    (MAGIC ++ [x03; x00; x00; x00] ++ zeros 4
     ++ concat [bin_block] ++ latin1_block ++ concat odd_blocks)
  = (ImageInfo 3 :: [EntryInfo "DIR " [98; 105; 110] 0 493],
     Raise UnicodeDecodeError).
Proof.
  apply (inspect_undecodable_name [bin_entry] [bin_block] _ latin1_entry).
  - vm_compute. reflexivity.
  - vm_compute. reflexivity.
  - vm_compute. reflexivity.
  - intros name. vm_compute. discriminate.
  - vm_compute. reflexivity.
  - reflexivity.
  - vm_compute. reflexivity.
Defined.

(** ** The shape of every listing *)

Lemma inspect_entries_shape n :
  forall i f,
    exists entries tail,
      fst (inspect_entries n i f) = entries ++ tail
      /\ Forall is_entry_info entries
      /\ (length entries <= n)%nat
      /\ (tail = []
          \/ (tail = [InvalidFileMagic (i + len entries)]
              /\ snd (inspect_entries n i f) = Ok tt)).
Proof.
  induction n as [|n IH]; intros i f.
  - exists [], []. simpl. repeat split; auto.
  - rewrite inspect_entries_S.
    destruct (f_read 32 f) as [header f1].
    destruct (struct_unpack 5 (firstn 20 header)) as [fields|e].
    2:{ exists [], []. simpl. repeat split; auto. lia. }
    destruct (negb (nth 0 fields 0 =? FILE_MAGIC)).
    { exists [], [InvalidFileMagic i]. simpl. repeat split; auto; [lia|].
      right. change (len []) with 0. now rewrite Z.add_0_r. }
    destruct (f_read _ f1) as [raw f2].
    destruct (utf8_decode _) as [name|e].
    2:{ exists [], []. simpl. repeat split; auto. lia. }
    destruct (IH (i + 1) (f_seek_cur (align_to (nth 2 fields 0) BLOCK_SIZE) f2))
      as (entries & tail & E & HF & Hl & Ht).
    destruct (inspect_entries n (i + 1) _) as [out r].
    simpl in E, Ht. subst out.
    eexists (_ :: entries), tail. simpl. split; [reflexivity|].
    split; [constructor; [exact I | exact HF]|]. split; [lia|].
    destruct Ht as [->|[-> ->]]; [now left|right].
    split; [|reflexivity]. do 2 f_equal. unfold len. simpl length. lia.
Qed.

(** Whatever bytes the inspector is given, one of three things happens: it
    reports an invalid image magic and nothing else; or it raises
    struct.error before printing; or it prints the entry count [c] read from
    the header, then at most [c] entries, and at most one invalid-entry
    error, which is then the last line, names the index of the entry it
    stands for, and ends the run normally. *)
Theorem inspect_output_shape img :
  inspect_simple_fs img = ([InvalidMagic (firstn 8 img)], Ok tt)
  \/ inspect_simple_fs img = ([], Raise StructError)
  \/ exists c entries tail r,
      inspect_simple_fs img = (ImageInfo c :: entries ++ tail, r)
      /\ 0 <= c < 2 ^ 32
      /\ Forall is_entry_info entries
      /\ len entries <= c
      /\ (tail = []
          \/ (tail = [InvalidFileMagic (len entries)] /\ r = Ok tt)).
Proof.
  unfold inspect_simple_fs.
  destruct (f_read 8 _) as [magic f1] eqn:E8.
  destruct (negb (bool_decide (magic = MAGIC))) eqn:Em.
  { left. unfold f_read in E8. cbn [pos content] in E8.
    change (Z.to_nat 0) with 0%nat in E8. rewrite drop_0 in E8.
    change (Z.to_nat 8) with 8%nat in E8.
    apply pair_equal_spec in E8 as [<- _]. reflexivity. }
  right. destruct (f_read 4 f1) as [raw f2].
  unfold struct_unpack.
  destruct (Nat.eqb (length raw) (4 * 1)) eqn:El; [|now left].
  right. apply Nat.eqb_eq in El. cbn [chunks4 map nth].
  destruct (f_read 4 f2) as [reserved f3].
  set (c := le_decode (firstn 4 raw)).
  assert (Hc : 0 <= c < 2 ^ 32).
  { pose proof (le_decode_range (firstn 4 raw)) as R.
    rewrite length_take in R.
    replace (4 `min` length raw)%nat with 4%nat in R by lia. exact R. }
  destruct (inspect_entries_shape (Z.to_nat c) 0 f3)
    as (entries & tail & E & HF & Hl & Ht).
  destruct (inspect_entries (Z.to_nat c) 0 f3) as [out r].
  simpl in E, Ht. subst out.
  exists c, entries, tail, r. split; [reflexivity|]. split; [exact Hc|].
  split; [exact HF|]. split; [unfold len; lia|].
  destruct Ht as [->|[-> ->]]; [now left|right]. auto.
Qed.

(** ** Where the image holds what *)

Lemma slice_app_mid pre x post :
  slice (pre ++ x ++ post) (len pre) (len x) = x.
Proof.
  unfold slice, len. rewrite !Nat2Z.id.
  rewrite drop_app_length. apply take_app_length.
Qed.

Lemma entry_block_size e block :
  entry_block e = Ok block -> len block = entry_size e.
Proof. apply pack_entry_len. Qed.

Lemma concat_blocks_len es blocks :
  rmapM entry_block es = Ok blocks ->
  len (concat blocks) = fold_right Z.add 0 (map entry_size es).
Proof.
  intros H. apply rmapM_Forall2 in H.
  induction H as [|e b es bs He _ IH]; [reflexivity|].
  cbn [concat map fold_right]. rewrite len_app, IH.
  now rewrite (entry_block_size _ _ He).
Qed.

Lemma image_of_entry_layout es n size img (i : nat) e :
  image_of es = Ok (n, size, img) -> es !! i = Some e ->
  let off := entry_start es i in
  let name_end := off + 32 + len (e_name e) in
  let data_start := off + 32 + align_to (len (e_name e)) 4 in
  let data_end := data_start + len (e_data e) in
  struct_unpack 5 (slice img off 20)
  = Ok [FILE_MAGIC; len (e_name e); len (e_data e); e_type e; e_mode e]
  /\ slice img (off + 20) 12 = zeros 12
  /\ slice img (off + 32) (len (e_name e)) = e_name e
  /\ slice img name_end (data_start - name_end) = zeros (data_start - name_end)
  /\ slice img data_start (len (e_data e)) = e_data e
  /\ slice img data_end (off + entry_size e - data_end)
     = zeros (off + entry_size e - data_end)
  /\ off + entry_size e <= size.
Proof.
  intros Him Hi. unfold image_of in Him.
  destruct (rmapM entry_block es) as [blocks|] eqn:Eb; [|discriminate].
  cbn [rbind] in Him.
  destruct (write_image_inv _ _ _ _ Him)
    as (_ & _ & Hs & Ha & cnt & Ec & Hc & ->).
  set (pad := zeros (align_to _ _ - _)) in *. clearbody pad.
  assert (Hlt : (i < length es)%nat) by (eapply lookup_lt_Some; eauto).
  destruct (rmapM_split _ _ _ i Eb Hlt)
    as (e' & es2 & be & bs2 & Hes & Hbs & Eb1 & Ebe & Li).
  assert (e' = e).
  { rewrite Hes in Hi. rewrite lookup_app_r in Hi by lia.
    rewrite Li, Nat.sub_diag in Hi. simpl in Hi. congruence. }
  subst e'.
  pose proof (concat_blocks_len _ _ Eb1) as Lpre.
  pose proof (entry_block_size _ _ Ebe) as Lbe.
  unfold entry_block in Ebe.
  destruct (pack_entry_inv _ _ _ _ _ Ebe) as (fields & Ef & Hl & ->).
  pose proof (struct_unpack_pack _ _ Ef) as U. simpl length in U.
  pose proof (align_to_bounds (len (e_name e)) 4 ltac:(lia)) as Ba.
  pose proof (align_to_bounds (len (e_data e)) BLOCK_SIZE
                ltac:(unfold BLOCK_SIZE; lia)) as Bd.
  set (npad := zeros (align_to (len (e_name e)) 4 - len (e_name e))) in *.
  set (dpad := zeros (align_to (len (e_data e)) BLOCK_SIZE - len (e_data e))) in *.
  set (pre := MAGIC ++ cnt ++ zeros 4 ++ concat (take i blocks)).
  assert (Lp : len pre = entry_start es i).
  { subst pre. rewrite !len_app, Lpre. unfold entry_start.
    change (len MAGIC) with 8. change (len (zeros 4)) with 4.
    assert (len cnt = 4) as -> by (unfold len; lia). lia. }
  set (post := concat bs2 ++ pad).
  assert (Himg : MAGIC ++ cnt ++ zeros 4 ++ concat blocks ++ pad
                 = pre ++ fields ++ zeros 12 ++ e_name e ++ npad
                   ++ e_data e ++ dpad ++ post).
  { subst pre post. rewrite Hbs at 1. rewrite concat_app. cbn [concat].
    now rewrite <- !app_assoc. }
  rewrite Himg in *. clear Himg.
  assert (Lf : len fields = 20) by (unfold len; lia).
  assert (Lnp : len npad = align_to (len (e_name e)) 4 - len (e_name e))
    by (subst npad; apply len_zeros; lia).
  assert (Ldp : len dpad
                = align_to (len (e_data e)) BLOCK_SIZE - len (e_data e))
    by (subst dpad; apply len_zeros; lia).
  cbv zeta. rewrite <- Lp. unfold entry_size.
  split; [|split; [|split; [|split; [|split; [|split]]]]].
  - rewrite <- Lf. now rewrite slice_app_mid.
  - replace (len pre + 20) with (len (pre ++ fields)) by (rewrite len_app; lia).
    change 12 with (len (zeros 12)) at 1.
    rewrite (app_assoc pre fields). apply slice_app_mid.
  - replace (len pre + 32) with (len (pre ++ fields ++ zeros 12))
      by (rewrite !len_app; change (len (zeros 12)) with 12; lia).
    rewrite (app_assoc fields), (app_assoc pre). apply slice_app_mid.
  - replace (len pre + 32 + len (e_name e))
      with (len (pre ++ fields ++ zeros 12 ++ e_name e))
      by (rewrite !len_app; change (len (zeros 12)) with 12; lia).
    replace (len pre + 32 + align_to (len (e_name e)) 4
             - len (pre ++ fields ++ zeros 12 ++ e_name e))
      with (len npad)
      by (rewrite !len_app; change (len (zeros 12)) with 12; lia).
    fold npad.
    replace (pre ++ fields ++ zeros 12 ++ e_name e ++ npad
             ++ e_data e ++ dpad ++ post)
      with ((pre ++ fields ++ zeros 12 ++ e_name e) ++ npad
            ++ e_data e ++ dpad ++ post) by now rewrite <- !app_assoc.
    rewrite slice_app_mid. subst npad. now rewrite len_zeros by lia.
  - replace (len pre + 32 + align_to (len (e_name e)) 4)
      with (len (pre ++ fields ++ zeros 12 ++ e_name e ++ npad))
      by (rewrite !len_app; change (len (zeros 12)) with 12; lia).
    replace (pre ++ fields ++ zeros 12 ++ e_name e ++ npad
             ++ e_data e ++ dpad ++ post)
      with ((pre ++ fields ++ zeros 12 ++ e_name e ++ npad)
            ++ e_data e ++ dpad ++ post) by now rewrite <- !app_assoc.
    apply slice_app_mid.
  - replace (len pre + 32 + align_to (len (e_name e)) 4 + len (e_data e))
      with (len (pre ++ fields ++ zeros 12 ++ e_name e ++ npad ++ e_data e))
      by (rewrite !len_app; change (len (zeros 12)) with 12; lia).
    replace (len pre + (32 + align_to (len (e_name e)) 4
                        + align_to (len (e_data e)) BLOCK_SIZE)
             - len (pre ++ fields ++ zeros 12 ++ e_name e ++ npad ++ e_data e))
      with (len dpad)
      by (rewrite !len_app; change (len (zeros 12)) with 12; lia).
    replace (pre ++ fields ++ zeros 12 ++ e_name e ++ npad
             ++ e_data e ++ dpad ++ post)
      with ((pre ++ fields ++ zeros 12 ++ e_name e ++ npad ++ e_data e)
            ++ dpad ++ post) by now rewrite <- !app_assoc.
    rewrite slice_app_mid. subst dpad. now rewrite len_zeros by lia.
  - rewrite Hs. rewrite !len_app. change (len (zeros 12)) with 12.
    pose proof (len_nonneg post). lia.
Qed.

(** In the image written for the entries [es], entry [i] starts at
    [entry_start es i], right after its predecessors.  From there the image
    holds the five header fields (magic, name length, data length, kind,
    mode), 12 zero bytes, the name followed by zeros up to a multiple of 4,
    and the data followed by zeros up to a multiple of 512. *)
Theorem image_holds_entries es n size img (i : nat) e :
  image_of es = Ok (n, size, img) -> es !! i = Some e ->
  let off := entry_start es i in
  let name_end := off + 32 + len (e_name e) in
  let data_start := off + 32 + align_to (len (e_name e)) 4 in
  let data_end := data_start + len (e_data e) in
  struct_unpack 5 (slice img off 20)
  = Ok [FILE_MAGIC; len (e_name e); len (e_data e); e_type e; e_mode e]
  /\ slice img (off + 20) 12 = zeros 12
  /\ slice img (off + 32) (len (e_name e)) = e_name e
  /\ slice img name_end (data_start - name_end) = zeros (data_start - name_end)
  /\ slice img data_start (len (e_data e)) = e_data e
  /\ slice img data_end (off + entry_size e - data_end)
     = zeros (off + entry_size e - data_end)
  /\ off + entry_size e <= size.
Proof. exact (image_of_entry_layout es n size img i e). Qed.

Lemma image_holds_entries_witness :
  let off := entry_start [bin_entry; odd_entry] 1 in
  let name_end := off + 32 + len (e_name odd_entry) in
  let data_start := off + 32 + align_to (len (e_name odd_entry)) 4 in
  let data_end := data_start + len (e_data odd_entry) in
  struct_unpack 5 (slice odd_image off 20)
  = Ok [FILE_MAGIC; len (e_name odd_entry); len (e_data odd_entry);
        e_type odd_entry; e_mode odd_entry]
  /\ slice odd_image (off + 20) 12 = zeros 12
  /\ slice odd_image (off + 32) (len (e_name odd_entry)) = e_name odd_entry
  /\ slice odd_image name_end (data_start - name_end)
     = zeros (data_start - name_end)
  /\ slice odd_image data_start (len (e_data odd_entry)) = e_data odd_entry
  /\ slice odd_image data_end (off + entry_size odd_entry - data_end)
     = zeros (off + entry_size odd_entry - data_end)
  /\ off + entry_size odd_entry <= 1024.
Proof.
  apply (image_holds_entries [bin_entry; odd_entry] 2 1024 odd_image 1).
  - vm_compute. reflexivity.
  - reflexivity.
Defined.

(** ** What collect_files returns *)

Lemma NoDup_fst_eq (l : list item) x y :
  NoDup (map fst l) -> In x l -> In y l -> fst x = fst y -> x = y.
Proof.
  induction l as [|z l IH]; [contradiction|].
  cbn [map]. intros Hnd Hx Hy E. apply NoDup_cons in Hnd as [Hz Hnd].
  destruct Hx as [->|Hx]; destruct Hy as [->|Hy].
  - reflexivity.
  - exfalso. apply Hz. rewrite E. now apply list_elem_of_In, in_map.
  - exfalso. apply Hz. rewrite <- E. now apply list_elem_of_In, in_map.
  - now apply IH.
Qed.

Lemma NoDup_fst_filter (P : item -> bool) l :
  NoDup (map fst l) -> NoDup (map fst (List.filter P l)).
Proof.
  induction l as [|z l IH]; [intros; constructor|].
  cbn [map List.filter]. intros Hnd. apply NoDup_cons in Hnd as [Hz Hnd].
  destruct (P z); [|now apply IH].
  cbn [map]. apply NoDup_cons. split; [|now apply IH].
  intros Hin. apply Hz. apply list_elem_of_In in Hin.
  apply in_map_iff in Hin as (y & E & Hy). apply filter_In in Hy as [Hy _].
  rewrite <- E. now apply list_elem_of_In, in_map.
Qed.

(** In a tree where no directory holds two entries of the same name,
    [collect_files] returns every directory of the tree (hidden ones
    too) and every regular file whose suffix and name are not excluded,
    each once, and nothing else. *)
Theorem collect_files_exact root :
  wf_node root = true ->
  NoDup (map fst (collect_files (Some root)))
  /\ forall it,
      In it (collect_files (Some root))
      <-> In it (rglob [] root)
          /\ (is_dir it = true
              \/ (is_file it = true
                  /\ str_in (path_suffix (fst it)) artifact_exts = false
                  /\ str_in (path_name (fst it))
                       ["Cargo.lock"; ".gitignore"]%string = false)).
Proof.
  intros Hwf. split.
  - pose proof (rglob_NoDup root [] Hwf) as Hnd.
    assert (Hs : NoDup (map fst (sorted (rglob [] root)))).
    { assert (map fst (sorted (rglob [] root)) ≡ₚ map fst (rglob [] root))
        as -> by apply Permutation_map, sorted_Permutation.
      exact Hnd. }
    unfold collect_files, collect_from. rewrite map_app.
    apply NoDup_app. split; [now apply NoDup_fst_filter|].
    split; [|now apply NoDup_fst_filter].
    intros p Hd Hf. apply list_elem_of_In in Hd, Hf.
    apply in_map_iff in Hd as (x & Ex & Hx).
    apply in_map_iff in Hf as (y & Ey & Hy).
    apply filter_In in Hx as [Hx Kx]. apply filter_In in Hy as [Hy Ky].
    assert (x = y) by (apply (NoDup_fst_eq _ x y Hs Hx Hy); congruence).
    subst y. apply andb_true_iff in Ky as [Ky _].
    apply andb_true_iff in Ky as [Ky _].
    apply is_file_not_dir in Ky. congruence.
  - intros it. rewrite collect_files_In. unfold collected.
    rewrite orb_true_iff, !andb_true_iff, !negb_true_iff. tauto.
Qed.

Lemma collect_files_exact_witness :
  NoDup (map fst (collect_files (Some cluttered_tree)))
  /\ forall it,
      In it (collect_files (Some cluttered_tree))
      <-> In it (rglob [] cluttered_tree)
          /\ (is_dir it = true
              \/ (is_file it = true
                  /\ str_in (path_suffix (fst it)) artifact_exts = false
                  /\ str_in (path_name (fst it))
                       ["Cargo.lock"; ".gitignore"]%string = false)).
Proof. apply (collect_files_exact cluttered_tree). vm_compute. reflexivity. Defined.

(** ** What is never packed *)

Lemma inspect_packed_items src n size img :
  make_simple_fs src = Ok (n, size, img) ->
  inspect_simple_fs img
  = (ImageInfo n :: map item_line (packed_items src), Ok tt).
Proof.
  intros H. destruct src as [root|]; [apply (inspect_make_simple_fs _ _ _ _ H)|].
  vm_compute in H. apply Ok_inj in H.
  apply pair_equal_spec in H as [H <-]. apply pair_equal_spec in H as [<- _].
  vm_compute. reflexivity.
Qed.

(** The entries of a written image come from regular files and directories
    only, and none of them is named [Cargo.lock], [Cargo.toml] or
    [.gitignore]: an item of such a name is left out whether it is a file or
    a directory, and so is whatever is neither file nor directory. *)
Theorem manifests_and_specials_not_packed src n size img :
  make_simple_fs src = Ok (n, size, img) ->
  inspect_simple_fs img
  = (ImageInfo n :: map item_line (packed_items src), Ok tt)
  /\ Forall (fun it =>
               (is_file it = true \/ is_dir it = true)
               /\ str_in (path_name (fst it))
                    ["Cargo.lock"; "Cargo.toml"; ".gitignore"]%string = false)
            (packed_items src).
Proof.
  intros H. split; [now apply (inspect_packed_items src n size)|].
  apply Forall_forall. intros it Hit. apply list_elem_of_In in Hit.
  apply packed_items_In in Hit as [_ He].
  unfold emitted, skipped_name in He.
  apply andb_true_iff in He as [Hs Hk]. apply negb_true_iff in Hs.
  apply orb_false_iff in Hs as [Hdot Hm]. apply orb_true_iff in Hk.
  split; [exact Hk|].
  unfold str_in in *. apply bool_decide_eq_false. intros Hin.
  apply bool_decide_eq_false in Hm. cbn [map] in Hin, Hm.
  apply elem_of_cons in Hin as [E|Hin]; [apply Hm; rewrite E; left|].
  apply elem_of_cons in Hin as [E|Hin]; [apply Hm; rewrite E; right; left|].
  apply elem_of_cons in Hin as [E|Hin]; [|inversion Hin].
  rewrite E in Hdot. vm_compute in Hdot. discriminate.
Qed.

Lemma manifests_and_specials_not_packed_witness :
  inspect_simple_fs manifest_image
  = (ImageInfo 2 :: map item_line (packed_items (Some manifest_tree)), Ok tt)
  /\ Forall (fun it =>
               (is_file it = true \/ is_dir it = true)
               /\ str_in (path_name (fst it))
                    ["Cargo.lock"; "Cargo.toml"; ".gitignore"]%string = false)
            (packed_items (Some manifest_tree)).
Proof.
  apply (manifests_and_specials_not_packed (Some manifest_tree) 2 1024).
  vm_compute. reflexivity.
Defined.

(** ** File contents in the image *)

(** After a successful run the image holds, for the [i]-th packed item, its
    encoded name at offset 32 of its entry and its data, byte for byte, at
    the next multiple of 4 after the name. *)
Theorem packed_file_contents root n size img (i : nat) it :
  make_simple_fs (Some root) = Ok (n, size, img) ->
  packed_items (Some root) !! i = Some it ->
  exists es name_bytes,
    rmapM entry_of (packed_items (Some root)) = Ok es
    /\ utf8_encode (replace_backslash (path_str (fst it))) = Ok name_bytes
    /\ slice img (entry_start es i + 32) (len name_bytes) = name_bytes
    /\ slice img (entry_start es i + 32 + align_to (len name_bytes) 4)
             (len (item_data it))
       = item_data it.
Proof.
  intros H Hi. destruct (make_simple_fs_image_of _ _ _ _ H) as (es & Ees & Him).
  pose proof Ees as HF. apply rmapM_Forall2 in HF.
  destruct (Forall2_lookup_l _ _ _ _ _ HF Hi) as (e & He & Hof).
  unfold entry_of in Hof.
  destruct (utf8_encode _) as [nb|] eqn:En; [|discriminate].
  apply Ok_inj in Hof.
  destruct (image_of_entry_layout es n size img i e Him He)
    as (_ & _ & Hname & _ & Hdata & _).
  subst e. cbn [e_name e_data] in Hname, Hdata.
  exists es, nb. auto.
Qed.

Lemma packed_file_contents_witness :
  exists es name_bytes,
    rmapM entry_of (packed_items (Some example_tree)) = Ok es
    /\ utf8_encode (replace_backslash (path_str (fst hello_item)))
       = Ok name_bytes
    /\ slice example_image (entry_start es 1 + 32) (len name_bytes)
       = name_bytes
    /\ slice example_image
             (entry_start es 1 + 32 + align_to (len name_bytes) 4)
             (len (item_data hello_item))
       = item_data hello_item.
Proof.
  apply (packed_file_contents example_tree 2 1024 example_image 1 hello_item).
  - vm_compute. reflexivity.
  - vm_compute. reflexivity.
Defined.

(** ** The command line *)

(** In inspect mode with an image file that exists, [main] writes nothing
    and never returns a nonzero exit code: it returns 0, also when the
    image has the wrong magic (then the one message is the invalid-magic
    error), or an exception of the inspector escapes. *)
Theorem main_inspect_exit_code args img :
  cli_inspect args = Some (Some img) ->
  exists msgs r,
    main args = (msgs, r, None)
    /\ (r = Ok 0 \/ exists e, r = Raise e)
    /\ (firstn 8 img <> MAGIC ->
        msgs = [Listing (InvalidMagic (firstn 8 img))] /\ r = Ok 0).
Proof.
  intros Hi. unfold main. rewrite Hi.
  destruct (inspect_simple_fs img) as [out r] eqn:E.
  eexists _, _. split; [reflexivity|]. split.
  - destruct r as [[]|e]; [now left | right; eauto].
  - intros Hm. unfold inspect_simple_fs, f_read in E. cbn [pos content] in E.
    change (Z.to_nat 0) with 0%nat in E. change (Z.to_nat 8) with 8%nat in E.
    rewrite drop_0 in E. rewrite bool_decide_eq_false_2 in E by exact Hm.
    cbn [negb] in E. apply pair_equal_spec in E as [<- <-]. auto.
Qed.

Lemma main_inspect_exit_code_witness :
  exists msgs r,
    main {| cli_src_dir := None; cli_output := false;
            cli_inspect := Some (Some hello) |} = (msgs, r, None)
    /\ (r = Ok 0 \/ exists e, r = Raise e)
    /\ (firstn 8 hello <> MAGIC ->
        msgs = [Listing (InvalidMagic (firstn 8 hello))] /\ r = Ok 0).
Proof. apply main_inspect_exit_code. reflexivity. Defined.



(** In pack mode, an item of the source that [pack_file] cannot pack makes
    [main] print the error, return 1 and write no image. *)
Theorem main_pack_failure args root it e :
  cli_inspect args = None -> cli_src_dir args = Some (Some root) ->
  cli_output args = true ->
  In it (collect_files (Some root)) -> pack_file it = Raise e ->
  exists e', main args = ([ErrorTrace e'], Ok 1, None).
Proof.
  intros Hi Hs Ho Hin He. unfold main. rewrite Hi, Hs, Ho.
  unfold make_simple_fs, make_simple_fs_from.
  destruct (pack_all_raises _ _ _ Hin He) as (e' & ->). eauto.
Qed.

Lemma main_pack_failure_witness :
  exists e',
    main {| cli_src_dir := Some (Some surrogate_tree); cli_output := true;
            cli_inspect := None |} = ([ErrorTrace e'], Ok 1, None).
Proof.
  apply (main_pack_failure _ surrogate_tree surrogate_item UnicodeEncodeError).
  - reflexivity.
  - reflexivity.
  - reflexivity.
  - vm_compute. tauto.
  - vm_compute. reflexivity.
Defined.

(** ** The result of pack_file *)

(** [pack_file] returns the empty bytes exactly for the items it leaves
    out (a skipped name, or neither file nor directory); for every other
    item the result holds at least the 32-byte header and is a multiple of
    4 bytes long, so the emptiness test of [make_simple_fs] (line 157)
    never drops an entry. *)
Theorem pack_file_empty_iff it block :
  pack_file it = Ok block ->
  (block = [] <-> emitted it = false)
  /\ (emitted it = true -> 32 <= len block /\ len block mod 4 = 0).
Proof.
  intros H. destruct (emitted it) eqn:Em.
  - rewrite (pack_file_emitted it Em) in H.
    destruct (entry_of it) as [e|]; [|discriminate]. cbn [rbind] in H.
    pose proof (entry_block_nonempty _ _ H) as Hne.
    pose proof (entry_block_size _ _ H) as Hl. unfold entry_size in Hl.
    pose proof (align_to_bounds (len (e_name e)) 4 ltac:(lia)).
    pose proof (align_to_bounds (len (e_data e)) BLOCK_SIZE
                  ltac:(unfold BLOCK_SIZE; lia)).
    pose proof (len_nonneg (e_name e)). pose proof (len_nonneg (e_data e)).
    pose proof (align_to_multiple (len (e_name e)) 4 ltac:(lia)) as M4.
    pose proof (align_to_multiple (len (e_data e)) BLOCK_SIZE
                  ltac:(unfold BLOCK_SIZE; lia)) as M512.
    unfold BLOCK_SIZE in *.
    split; [split; [contradiction | discriminate]|].
    intros _. split; [lia|]. rewrite Hl. divmod_lia.
  - split; [|discriminate].
    split; [reflexivity|intros _]. now apply (pack_file_not_emitted it).
Qed.

Lemma pack_file_empty_iff_witness :
  (hello_block = [] <-> emitted hello_item = false)
  /\ (emitted hello_item = true ->
      32 <= len hello_block /\ len hello_block mod 4 = 0).
Proof.
  apply (pack_file_empty_iff hello_item hello_block). vm_compute. reflexivity.
Defined.

(** ** The size of the image *)

(** For a source that exists, the returned count is the number of packed
    items and fits the 32-bit header field, and the size is the 16 header
    bytes plus the sizes of the entries, rounded up to a multiple of 512:
    at least 512 bytes and less than 512 bytes of padding. *)
Theorem make_simple_fs_size root n size img :
  make_simple_fs (Some root) = Ok (n, size, img) ->
  exists es,
    rmapM entry_of (packed_items (Some root)) = Ok es
    /\ n = len (packed_items (Some root)) /\ n < 2 ^ 32
    /\ let used := 16 + fold_right Z.add 0 (map entry_size es) in
       size = align_to used BLOCK_SIZE
       /\ 512 <= size /\ used <= size < used + 512.
Proof.
  intros H. destruct (make_simple_fs_image_of _ _ _ _ H) as (es & Ees & Him).
  exists es. split; [exact Ees|].
  unfold image_of in Him.
  destruct (rmapM entry_block es) as [blocks|] eqn:Eb; [|discriminate].
  cbn [rbind] in Him.
  destruct (write_image_inv _ _ _ _ Him) as (Hn & Hu & _ & Ha & _).
  rewrite (concat_blocks_len _ _ Eb) in Ha.
  split; [|split; [unfold uint32 in Hu; lia|]].
  { rewrite Hn. unfold len.
    now rewrite (rmapM_length _ _ _ Eb), (rmapM_length _ _ _ Ees). }
  cbv zeta. split; [exact Ha|].
  pose proof (align_to_bounds
                (16 + fold_right Z.add 0 (map entry_size es)) BLOCK_SIZE
                ltac:(unfold BLOCK_SIZE; lia)) as B.
  pose proof (align_to_multiple
                (16 + fold_right Z.add 0 (map entry_size es)) BLOCK_SIZE
                ltac:(unfold BLOCK_SIZE; lia)) as M.
  assert (Hpos : 0 <= fold_right Z.add 0 (map entry_size es)).
  { rewrite <- (concat_blocks_len _ _ Eb). apply len_nonneg. }
  rewrite <- Ha in *. unfold BLOCK_SIZE in *. split; [divmod_lia | lia].
Qed.

Lemma make_simple_fs_size_witness :
  exists es,
    rmapM entry_of (packed_items (Some example_tree)) = Ok es
    /\ 2 = len (packed_items (Some example_tree)) /\ 2 < 2 ^ 32
    /\ let used := 16 + fold_right Z.add 0 (map entry_size es) in
       1024 = align_to used BLOCK_SIZE
       /\ 512 <= 1024 /\ used <= 1024 < used + 512.
Proof.
  apply (make_simple_fs_size example_tree 2 1024 example_image).
  vm_compute. reflexivity.
Defined.

(** ** Stored names *)

Lemma replace_backslash_free s : ~ In 92 (replace_backslash s).
Proof.
  unfold replace_backslash. intros H. apply in_map_iff in H as (c & E & _).
  destruct (c =? 92) eqn:Ec; [discriminate|]. apply Z.eqb_neq in Ec. lia.
Qed.

(** No entry of a written image has a backslash in its name: every
    backslash of a path is stored as a slash. *)
Theorem stored_names_have_no_backslash src n size img :
  make_simple_fs src = Ok (n, size, img) ->
  Forall (fun name => ~ In 92 name)
         (line_names (fst (inspect_simple_fs img))).
Proof.
  intros H. rewrite (inspect_packed_items src n size img H). cbn [fst].
  apply Forall_forall. intros name Hn. apply list_elem_of_In in Hn.
  unfold line_names in Hn. apply in_flat_map in Hn as (ln & Hln & Hn).
  destruct Hln as [<-|Hln]; [contradiction|].
  apply in_map_iff in Hln as (it & <- & _).
  unfold item_line in Hn. destruct Hn as [<-|[]].
  apply replace_backslash_free.
Qed.

Lemma stored_names_have_no_backslash_witness :
  Forall (fun name => ~ In 92 name)
         (line_names (fst (inspect_simple_fs backslash_image))).
Proof.
  apply (stored_names_have_no_backslash (Some backslash_tree) 1 1024).
  vm_compute. reflexivity.
Defined.

(** * Properties of rewrite_links.py *)

(** ** rsplit and split *)

Lemma rsplit_colon_none path :
  rsplit_colon path = None <-> ~ In 58 path.
Proof.
  induction path as [|c path IH]; cbn [rsplit_colon]; [tauto|].
  destruct (rsplit_colon path) as [[b a]|] eqn:E.
  - split; [discriminate|]. intros H. exfalso.
    assert (Hn : ~ In 58 path) by (simpl in H; tauto).
    apply IH in Hn. discriminate.
  - destruct (c =? 58) eqn:Ec.
    + apply Z.eqb_eq in Ec. subst. split; [discriminate|]. simpl. tauto.
    + apply Z.eqb_neq in Ec. split; [|reflexivity].
      intros _. simpl. intros [H|H]; [lia|]. now apply (proj1 IH).
Qed.

Lemma rsplit_colon_app before after :
  ~ In 58 after ->
  rsplit_colon (before ++ 58 :: after) = Some (before, after).
Proof.
  intros Ha. induction before as [|x before IH]; cbn [app rsplit_colon].
  - now rewrite (proj2 (rsplit_colon_none after) Ha).
  - now rewrite IH.
Qed.

Lemma rsplit_colon_inv path :
  forall before after,
    rsplit_colon path = Some (before, after) ->
    path = before ++ 58 :: after /\ ~ In 58 after.
Proof.
  induction path as [|c path IH]; intros before after; cbn [rsplit_colon];
    [discriminate|].
  destruct (rsplit_colon path) as [[b a]|] eqn:E.
  - intros H. apply (inj Some) in H. apply pair_equal_spec in H as [<- <-].
    destruct (IH b a eq_refl) as [-> Ha]. auto.
  - destruct (c =? 58) eqn:Ec; [|discriminate].
    apply Z.eqb_eq in Ec. subst c.
    intros H. apply (inj Some) in H. apply pair_equal_spec in H as [<- <-].
    split; [reflexivity|]. now apply rsplit_colon_none.
Qed.

Lemma existsb_dash s : existsb (Z.eqb 45) s = true <-> In 45 s.
Proof.
  rewrite existsb_exists. split.
  - intros (x & Hx & E). apply Z.eqb_eq in E. now subst.
  - intros H. exists 45. split; [exact H | apply Z.eqb_refl].
Qed.

Lemma existsb_dash_false s : existsb (Z.eqb 45) s = false <-> ~ In 45 s.
Proof.
  rewrite <- existsb_dash. destruct (existsb (Z.eqb 45) s); split;
    congruence.
Qed.

Lemma split_dash_nonempty s : split_dash s <> [].
Proof.
  destruct s as [|c s]; [discriminate|]. cbn [split_dash].
  destruct (split_dash s); [discriminate|]. now destruct (c =? 45).
Qed.

Lemma split_dash_length s :
  length (split_dash s) = S (count_occ Z.eq_dec s 45).
Proof.
  induction s as [|c s IH]; [reflexivity|]. cbn [split_dash count_occ].
  destruct (split_dash s) as [|part parts] eqn:E;
    [now destruct (split_dash_nonempty s)|].
  destruct (Z.eq_dec c 45) as [->|Hc].
  - cbn [Z.eqb Pos.eqb]. cbn [length] in *. lia.
  - destruct (c =? 45) eqn:Ec; [apply Z.eqb_eq in Ec; contradiction|].
    cbn [length] in *. lia.
Qed.

Lemma split_dash_plain s : ~ In 45 s -> split_dash s = [s].
Proof.
  induction s as [|c s IH]; [reflexivity|]. intros H. cbn [split_dash].
  rewrite IH by (simpl in H; tauto).
  destruct (c =? 45) eqn:Ec; [|reflexivity].
  apply Z.eqb_eq in Ec. simpl in H. tauto.
Qed.

Lemma split_dash_one a b :
  ~ In 45 a -> ~ In 45 b -> split_dash (a ++ 45 :: b) = [a; b].
Proof.
  intros Ha Hb. induction a as [|c a IH]; cbn [app split_dash].
  - now rewrite (split_dash_plain b Hb).
  - rewrite IH by (simpl in Ha; tauto).
    destruct (c =? 45) eqn:Ec; [|reflexivity].
    apply Z.eqb_eq in Ec. simpl in Ha. tauto.
Qed.

(** ** convert_link *)

Lemma convert_link_anchor text path file_path anchor :
  match rsplit_colon path with
  | Some (file_path', line_spec) =>
      if existsb (Z.eqb 45) line_spec
      then match split_dash line_spec with
           | [start_line; end_line] =>
               Some (file_path',
                     pystr_of "#L" ++ start_line ++ pystr_of "-L" ++ end_line)
           | _ => None
           end
      else Some (file_path', pystr_of "#L" ++ line_spec)
  | None => Some (path, [])
  end = Some (file_path, anchor) ->
  convert_link text path = Some (github_link text (file_path ++ anchor)).
Proof.
  intros H. unfold convert_link. rewrite H. unfold github_link.
  unfold GITHUB_REPO, GITHUB_BRANCH. simpl. reflexivity.
Qed.

(** [convert_link] raises ValueError exactly when what follows the last
    colon of the path holds two or more dashes: the line range then splits
    into more than two parts, which cannot be unpacked into a start and an
    end. *)
Theorem convert_link_raises_iff text path :
  convert_link text path = None
  <-> exists file_path line_spec,
        path = file_path ++ 58 :: line_spec
        /\ ~ In 58 line_spec
        /\ (2 <= count_occ Z.eq_dec line_spec 45%Z)%nat.
Proof.
  split.
  - unfold convert_link.
    destruct (rsplit_colon path) as [[fp spec]|] eqn:E; [|discriminate].
    destruct (rsplit_colon_inv _ _ _ E) as [-> Hc].
    destruct (existsb (Z.eqb 45) spec) eqn:Ed; [|discriminate].
    apply existsb_dash in Ed.
    apply (count_occ_In Z.eq_dec) in Ed.
    pose proof (split_dash_length spec) as L.
    destruct (split_dash spec) as [|a [|b [|c parts]]]; try discriminate;
      cbn [length] in L; intros _; exists fp, spec;
      (split; [reflexivity|]); (split; [exact Hc|]); lia.
  - intros (fp & spec & -> & Hc & Hn). unfold convert_link.
    rewrite (rsplit_colon_app fp spec Hc).
    assert (Hin : In 45 spec) by (apply (count_occ_In Z.eq_dec); lia).
    rewrite (proj2 (existsb_dash spec) Hin).
    pose proof (split_dash_length spec) as L.
    destruct (split_dash spec) as [|a [|b [|c parts]]]; try reflexivity;
      cbn [length] in L; lia.
Qed.

(** The three forms of a link: a path [file:line] gets the anchor [#Lline],
    a path [file:start-end] gets [#Lstart-Lend], and a path without a colon
    gets no anchor.  The file part is taken up to the last colon, and the
    line parts are copied as they are, digits or not. *)
Theorem convert_link_formats text file_path a b :
  ~ In 58 a -> ~ In 45 a -> ~ In 58 b -> ~ In 45 b ->
  convert_link text (file_path ++ 58 :: a)
  = Some (github_link text (file_path ++ pystr_of "#L" ++ a))
  /\ convert_link text (file_path ++ 58 :: a ++ 45 :: b)
     = Some (github_link text
               (file_path ++ pystr_of "#L" ++ a ++ pystr_of "-L" ++ b))
  /\ (~ In 58 file_path ->
      convert_link text file_path = Some (github_link text file_path)).
Proof.
  intros Hca Hda Hcb Hdb. split; [|split].
  - apply convert_link_anchor. rewrite (rsplit_colon_app _ _ Hca).
    now rewrite (proj2 (existsb_dash_false a) Hda).
  - apply convert_link_anchor.
    assert (Hc : ~ In 58 (a ++ 45 :: b)).
    { rewrite in_app_iff. simpl. intros [H|[H|H]]; [tauto | lia | tauto]. }
    rewrite (rsplit_colon_app _ _ Hc).
    assert (Hd : In 45 (a ++ 45 :: b)) by (rewrite in_app_iff; simpl; auto).
    rewrite (proj2 (existsb_dash _) Hd).
    now rewrite (split_dash_one a b Hda Hdb).
  - intros Hf. rewrite <- (app_nil_r file_path) at 2.
    apply convert_link_anchor.
    now rewrite (proj2 (rsplit_colon_none file_path) Hf).
Qed.

Lemma convert_link_formats_witness :
  convert_link (pystr_of "b") (pystr_of "mm/b.rs" ++ 58 :: pystr_of "12")
  = Some (github_link (pystr_of "b")
            (pystr_of "mm/b.rs" ++ pystr_of "#L" ++ pystr_of "12"))
  /\ convert_link (pystr_of "b")
       (pystr_of "mm/b.rs" ++ 58 :: pystr_of "12" ++ 45 :: pystr_of "34")
     = Some (github_link (pystr_of "b")
               (pystr_of "mm/b.rs" ++ pystr_of "#L" ++ pystr_of "12"
                ++ pystr_of "-L" ++ pystr_of "34"))
  /\ (~ In 58 (pystr_of "mm/b.rs") ->
      convert_link (pystr_of "b") (pystr_of "mm/b.rs")
      = Some (github_link (pystr_of "b") (pystr_of "mm/b.rs"))).
Proof.
  apply (convert_link_formats (pystr_of "b") (pystr_of "mm/b.rs")
           (pystr_of "12") (pystr_of "34")); simpl; lia.
Defined.

Lemma source_link_eq text path :
  source_link text path
  = 91 :: text ++ pystr_of "](/os/src/" ++ path ++ [41].
Proof. reflexivity. Qed.

Lemma span_until_inv stop s run after :
  span_until stop s = (run, after) ->
  s = run ++ after /\ ~ In stop run
  /\ (after = [] \/ exists t, after = stop :: t).
Proof.
  revert run after. induction s as [|c s IH]; intros run after; cbn [span_until].
  - intros H. apply pair_equal_spec in H as [<- <-]. simpl. tauto.
  - destruct (c =? stop) eqn:Ec.
    + apply Z.eqb_eq in Ec. subst c. intros H.
      apply pair_equal_spec in H as [<- <-]. simpl. split; [reflexivity|].
      split; [tauto|]. right. now exists s.
    + apply Z.eqb_neq in Ec. destruct (span_until stop s) as [r a] eqn:E.
      intros H. apply pair_equal_spec in H as [<- <-].
      destruct (IH r a eq_refl) as (-> & Hr & Ha).
      split; [reflexivity|]. split; [|exact Ha].
      simpl. intros [H|H]; [congruence | tauto].
Qed.

Lemma span_until_app stop run t :
  ~ In stop run -> span_until stop (run ++ stop :: t) = (run, stop :: t).
Proof.
  induction run as [|c run IH]; intros H; cbn [app span_until].
  - now rewrite Z.eqb_refl.
  - destruct (c =? stop) eqn:Ec.
    + apply Z.eqb_eq in Ec. simpl in H. tauto.
    + rewrite IH by (simpl in H; tauto). reflexivity.
Qed.

Lemma strip_prefix_inv p s t : strip_prefix p s = Some t -> s = p ++ t.
Proof.
  revert s. induction p as [|x p IH]; intros s; cbn [strip_prefix].
  - intros H. now apply (inj Some) in H.
  - destruct s as [|y s]; [discriminate|].
    destruct (x =? y) eqn:E; [|discriminate].
    apply Z.eqb_eq in E. subst y. intros H. simpl. f_equal. now apply IH.
Qed.

Lemma strip_prefix_app p t : strip_prefix p (p ++ t) = Some t.
Proof.
  induction p as [|x p IH]; [now destruct t|].
  cbn [app strip_prefix]. now rewrite Z.eqb_refl.
Qed.

Lemma match_link_inv s text path after :
  match_link s = Some (text, path, after) ->
  s = source_link text path ++ after
  /\ text <> [] /\ ~ In 93 text /\ path <> [] /\ ~ In 41 path.
Proof.
  unfold match_link. destruct s as [|c s1]; [discriminate|].
  destruct (c =? 91) eqn:Ec; [|discriminate]. apply Z.eqb_eq in Ec. subst c.
  destruct (span_until 93 s1) as [tx s2] eqn:E1.
  destruct tx as [|t0 tx]; [discriminate|].
  destruct (strip_prefix (pystr_of "](/os/src/") s2) as [s3|] eqn:E2;
    [|discriminate].
  destruct (span_until 41 s3) as [pa s4] eqn:E3.
  destruct pa as [|p0 pa]; [discriminate|].
  destruct s4 as [|d s5]; [discriminate|].
  destruct (d =? 41) eqn:Ed; [|discriminate]. apply Z.eqb_eq in Ed. subst d.
  intros H. apply (inj Some) in H.
  apply pair_equal_spec in H as [H <-]. apply pair_equal_spec in H as [<- <-].
  destruct (span_until_inv _ _ _ _ E1) as (-> & Ht & _).
  destruct (span_until_inv _ _ _ _ E3) as (-> & Hp & _).
  apply strip_prefix_inv in E2. subst s2.
  split; [|repeat split; try discriminate; assumption].
  rewrite source_link_eq. cbn [app]. f_equal. rewrite <- !app_assoc.
  cbn [app]. rewrite <- !app_assoc. reflexivity.
Qed.

Lemma match_link_intro text path after :
  text <> [] -> ~ In 93 text -> path <> [] -> ~ In 41 path ->
  match_link (source_link text path ++ after) = Some (text, path, after).
Proof.
  intros Ht0 Ht Hp0 Hp. rewrite source_link_eq. cbn [app].
  unfold match_link. rewrite Z.eqb_refl.
  replace ((text ++ pystr_of "](/os/src/" ++ path ++ [41]) ++ after)
    with (text ++ 93 :: (pystr_of "(/os/src/" ++ path ++ 41 :: after))
    by (rewrite <- !app_assoc; reflexivity).
  rewrite (span_until_app 93 text _ Ht).
  destruct text as [|t0 text]; [contradiction|].
  change (93 :: pystr_of "(/os/src/" ++ path ++ 41 :: after)
    with (pystr_of "](/os/src/" ++ path ++ 41 :: after).
  rewrite strip_prefix_app. rewrite (span_until_app 41 path _ Hp).
  destruct path as [|p0 path]; [contradiction|].
  now rewrite Z.eqb_refl.
Qed.

Lemma match_link_head c s : c <> 91 -> match_link (c :: s) = None.
Proof.
  intros H. unfold match_link. apply Z.eqb_neq in H. now rewrite H.
Qed.

Lemma source_link_length text path :
  length (source_link text path)
  = (12 + length text + length path)%nat.
Proof.
  rewrite source_link_eq. cbn [length]. rewrite !length_app. simpl. lia.
Qed.

Lemma match_link_shorter s text path after :
  match_link s = Some (text, path, after) ->
  (length after < length s)%nat.
Proof.
  intros H. destruct (match_link_inv _ _ _ _ H) as (-> & _).
  rewrite length_app, source_link_length. lia.
Qed.

Lemma sub_links_fuel n m s :
  (length s <= n)%nat -> (length s <= m)%nat ->
  sub_links n s = sub_links m s.
Proof.
  revert m s. induction n as [|n IH]; intros m s Hn Hm.
  - destruct s; [now destruct m | simpl in Hn; lia].
  - destruct s as [|c s]; [now destruct m|].
    destruct m as [|m]; [simpl in Hm; lia|]. cbn [sub_links].
    simpl in Hn, Hm.
    destruct (match_link (c :: s)) as [[[text path] after]|] eqn:E.
    + apply match_link_shorter in E. simpl in E.
      destruct (convert_link text path); [|reflexivity].
      now rewrite (IH m after) by lia.
    + now rewrite (IH m s) by lia.
Qed.

Lemma count_links_fuel n m s :
  (length s <= n)%nat -> (length s <= m)%nat ->
  count_links n s = count_links m s.
Proof.
  revert m s. induction n as [|n IH]; intros m s Hn Hm.
  - destruct s; [now destruct m | simpl in Hn; lia].
  - destruct s as [|c s]; [now destruct m|].
    destruct m as [|m]; [simpl in Hm; lia|]. cbn [count_links].
    simpl in Hn, Hm.
    destruct (match_link (c :: s)) as [[[text path] after]|] eqn:E.
    + apply match_link_shorter in E. simpl in E.
      now rewrite (IH m after) by lia.
    + now rewrite (IH m s) by lia.
Qed.

Lemma re_sub_match s text path after :
  match_link s = Some (text, path, after) ->
  re_sub s = match convert_link text path with
             | Some link => option_map (app link) (re_sub after)
             | None => None
             end.
Proof.
  intros E. pose proof (match_link_shorter _ _ _ _ E) as L.
  unfold re_sub. destruct s as [|c s]; [discriminate|].
  cbn [length sub_links]. rewrite E. simpl in L.
  destruct (convert_link text path); [|reflexivity].
  now rewrite (sub_links_fuel (length s) (length after) after) by lia.
Qed.

Lemma re_sub_skip c s :
  match_link (c :: s) = None ->
  re_sub (c :: s) = option_map (cons c) (re_sub s).
Proof. intros E. unfold re_sub. cbn [length sub_links]. now rewrite E. Qed.

Lemma findall_count_match s text path after :
  match_link s = Some (text, path, after) ->
  findall_count s = 1 + findall_count after.
Proof.
  intros E. pose proof (match_link_shorter _ _ _ _ E) as L.
  unfold findall_count. destruct s as [|c s]; [discriminate|].
  cbn [length count_links]. rewrite E. simpl in L.
  now rewrite (count_links_fuel (length s) (length after) after) by lia.
Qed.

Lemma findall_count_skip c s :
  match_link (c :: s) = None -> findall_count (c :: s) = findall_count s.
Proof.
  intros E. unfold findall_count. cbn [length count_links]. now rewrite E.
Qed.

Lemma re_sub_prefix pre s :
  ~ In 91 pre -> re_sub (pre ++ s) = option_map (app pre) (re_sub s).
Proof.
  induction pre as [|c pre IH]; intros H.
  - cbn [app]. now destruct (re_sub s).
  - cbn [app]. rewrite re_sub_skip
      by (apply match_link_head; simpl in H; intros ->; tauto).
    rewrite IH by (simpl in H; tauto). now destruct (re_sub s).
Qed.

Lemma findall_count_prefix pre s :
  ~ In 91 pre -> findall_count (pre ++ s) = findall_count s.
Proof.
  induction pre as [|c pre IH]; intros H; [reflexivity|].
  cbn [app]. rewrite findall_count_skip
    by (apply match_link_head; simpl in H; intros ->; tauto).
  apply IH. simpl in H. tauto.
Qed.

Lemma count_links_nonneg n s : 0 <= count_links n s.
Proof.
  revert s. induction n as [|n IH]; intros [|c s]; cbn [count_links]; try lia.
  destruct (match_link (c :: s)) as [[[? ?] after]|].
  - specialize (IH after). lia.
  - apply IH.
Qed.

Lemma findall_count_nonneg s : 0 <= findall_count s.
Proof. apply count_links_nonneg. Qed.

(** One step of the rewriting: text without an opening bracket is copied,
    the link that follows it is replaced by what [convert_link] returns, and
    the rewriting goes on behind the closing parenthesis; [findall] counts
    the link once.  A link is an opening bracket, a non-empty text without
    a closing bracket, [](/os/src/], a non-empty path without a closing
    parenthesis, and a closing parenthesis. *)
Theorem re_sub_link pre text path post :
  ~ In 91 pre -> text <> [] -> ~ In 93 text -> path <> [] -> ~ In 41 path ->
  re_sub (pre ++ source_link text path ++ post)
  = match convert_link text path, re_sub post with
    | Some link, Some rest => Some (pre ++ link ++ rest)
    | _, _ => None
    end
  /\ findall_count (pre ++ source_link text path ++ post)
     = 1 + findall_count post.
Proof.
  intros Hpre Ht0 Ht Hp0 Hp.
  pose proof (match_link_intro text path post Ht0 Ht Hp0 Hp) as E. split.
  - rewrite (re_sub_prefix _ _ Hpre), (re_sub_match _ _ _ _ E).
    destruct (convert_link text path); [|reflexivity].
    now destruct (re_sub post).
  - now rewrite (findall_count_prefix _ _ Hpre), (findall_count_match _ _ _ _ E).
Qed.

Lemma split_dash_total s :
  (list_sum (map (@length Z) (split_dash s)) + length (split_dash s)
   = S (length s))%nat.
Proof.
  induction s as [|c s IH]; [reflexivity|]. cbn [split_dash].
  destruct (split_dash s) as [|part parts] eqn:E;
    [now destruct (split_dash_nonempty s)|].
  destruct (c =? 45); simpl in *; lia.
Qed.

Lemma convert_link_longer text path link :
  convert_link text path = Some link ->
  (length (source_link text path) < length link)%nat.
Proof.
  rewrite source_link_length. unfold convert_link.
  destruct (rsplit_colon path) as [[fp spec]|] eqn:E.
  - destruct (rsplit_colon_inv _ _ _ E) as [-> _].
    destruct (existsb (Z.eqb 45) spec).
    + pose proof (split_dash_total spec) as L.
      destruct (split_dash spec) as [|a [|b [|c parts]]]; try discriminate.
      intros H. apply (inj Some) in H. subst link.
      simpl in L.
      rewrite !length_app. cbn [length]. rewrite ?length_app.
      simpl. lia.
    + intros H. apply (inj Some) in H. subst link.
      rewrite !length_app. cbn [length]. simpl. lia.
  - intros H. apply (inj Some) in H. subst link.
    rewrite !length_app. simpl. lia.
Qed.

Lemma sub_links_length n s t :
  (length s <= n)%nat -> sub_links n s = Some t ->
  Z.of_nat (length s) + count_links n s <= Z.of_nat (length t).
Proof.
  revert s t. induction n as [|n IH]; intros s t Hn.
  - destruct s; [|simpl in Hn; lia]. cbn. intros H.
    apply (inj Some) in H. subst t. simpl. lia.
  - destruct s as [|c s].
    { cbn. intros H. apply (inj Some) in H. subst t. simpl. lia. }
    cbn [sub_links count_links]. simpl in Hn.
    destruct (match_link (c :: s)) as [[[text path] after]|] eqn:E.
    + pose proof (match_link_shorter _ _ _ _ E) as L. simpl in L.
      destruct (match_link_inv _ _ _ _ E) as (Es & _).
      destruct (convert_link text path) as [link|] eqn:Ec; [|discriminate].
      apply convert_link_longer in Ec.
      destruct (sub_links n after) as [t'|] eqn:Et; [|discriminate].
      cbn [option_map]. intros H. apply (inj Some) in H. subst t.
      apply IH in Et; [|lia]. rewrite Es. rewrite !length_app. lia.
    + destruct (sub_links n s) as [t'|] eqn:Et; [|discriminate].
      cbn [option_map]. intros H. apply (inj Some) in H. subst t.
      apply IH in Et; [|lia]. cbn [length]. lia.
Qed.

Lemma sub_links_unchanged n s :
  count_links n s = 0 -> sub_links n s = Some s.
Proof.
  revert s. induction n as [|n IH]; intros [|c s]; try reflexivity.
  cbn [sub_links count_links].
  destruct (match_link (c :: s)) as [[[text path] after]|].
  - pose proof (count_links_nonneg n after). lia.
  - intros H. now rewrite (IH s H).
Qed.

Lemma process_file_inv content n modified written :
  process_file content = Some (n, modified, written) ->
  n = findall_count content
  /\ modified = (0 <? findall_count content)
  /\ written = (if modified then re_sub content else None)
  /\ (modified = true ->
      exists new_content, re_sub content = Some new_content
        /\ (length content < length new_content)%nat).
Proof.
  unfold process_file.
  destruct (re_sub content) as [new|] eqn:E; [|discriminate].
  pose proof (findall_count_nonneg content) as Hc.
  pose proof (sub_links_length _ _ _ (le_n _) E) as L.
  fold (findall_count content) in L.
  destruct (Z.eq_dec (findall_count content) 0) as [H0|H0].
  - pose proof (sub_links_unchanged _ _ H0) as U.
    fold (re_sub content) in U. rewrite E in U. apply (inj Some) in U.
    subst new. rewrite bool_decide_eq_false_2 by tauto.
    intros H. apply (inj Some) in H.
    apply pair_equal_spec in H as [H <-]. apply pair_equal_spec in H as [<- <-].
    rewrite H0. repeat split; try reflexivity. discriminate.
  - rewrite bool_decide_eq_true_2
      by (intros ->; lia).
    intros H. apply (inj Some) in H.
    apply pair_equal_spec in H as [H <-]. apply pair_equal_spec in H as [<- <-].
    repeat split; try reflexivity.
    + symmetry. apply Z.ltb_lt. lia.
    + intros _. exists new. split; [reflexivity | lia].
Qed.

Lemma re_sub_link_witness :
  re_sub (pystr_of "See " ++ source_link (pystr_of "b") (pystr_of "b.rs:12")
          ++ pystr_of " and more.")
  = match convert_link (pystr_of "b") (pystr_of "b.rs:12"),
          re_sub (pystr_of " and more.") with
    | Some link, Some rest => Some (pystr_of "See " ++ link ++ rest)
    | _, _ => None
    end
  /\ findall_count (pystr_of "See "
                    ++ source_link (pystr_of "b") (pystr_of "b.rs:12")
                    ++ pystr_of " and more.")
     = 1 + findall_count (pystr_of " and more.").
Proof.
  apply (re_sub_link (pystr_of "See ") (pystr_of "b") (pystr_of "b.rs:12")
           (pystr_of " and more.")); simpl; try discriminate; lia.
Defined.

Lemma convert_link_many_dashes text file_path line_spec :
  ~ In 58 line_spec -> (2 <= count_occ Z.eq_dec line_spec 45%Z)%nat ->
  convert_link text (file_path ++ 58 :: line_spec) = None.
Proof.
  intros Hc Hn. unfold convert_link.
  rewrite (rsplit_colon_app file_path line_spec Hc).
  assert (Hin : In 45 line_spec) by (apply (count_occ_In Z.eq_dec); lia).
  rewrite (proj2 (existsb_dash line_spec) Hin).
  pose proof (split_dash_length line_spec) as L.
  destruct (split_dash line_spec) as [|a [|b [|c parts]]]; try reflexivity;
    cbn [length] in L; lia.
Qed.

(** What [process_file] returns when it returns: the count is the number
    of links found, also on the path that returns the literal 0, since the
    content differs from the rewritten one exactly when a link was found
    (every converted link is longer than its source); the file is written
    only then, with the rewritten content. *)
Theorem process_file_outcome content n modified written :
  process_file content = Some (n, modified, written) ->
  n = findall_count content
  /\ if 0 <? findall_count content
     then modified = true
          /\ exists new_content,
               written = Some new_content
               /\ re_sub content = Some new_content
               /\ new_content <> content
     else modified = false /\ written = None
          /\ re_sub content = Some content.
Proof.
  intros H. destruct (process_file_inv _ _ _ _ H) as (-> & -> & -> & Hm).
  split; [reflexivity|].
  destruct (0 <? findall_count content) eqn:E.
  - split; [reflexivity|]. destruct (Hm eq_refl) as (new & Hn & L).
    exists new. repeat split; try assumption. intros ->. lia.
  - repeat split. apply sub_links_unchanged.
    fold (findall_count content). apply Z.ltb_ge in E.
    pose proof (findall_count_nonneg content). lia.
Qed.

Lemma process_file_outcome_witness :
  3 = findall_count sample_page
  /\ if 0 <? findall_count sample_page
     then true = true
          /\ exists new_content,
               re_sub sample_page = Some new_content
               /\ re_sub sample_page = Some new_content
               /\ new_content <> sample_page
     else true = false /\ re_sub sample_page = None
          /\ re_sub sample_page = Some sample_page.
Proof.
  apply (process_file_outcome sample_page 3 true (re_sub sample_page)).
  vm_compute. reflexivity.
Defined.

(** A link whose line range holds two or more dashes makes [process_file]
    raise ValueError, whatever follows it in the file: nothing is written
    and nothing is returned. *)
Theorem process_file_malformed_range_raises pre text file_path line_spec post :
  ~ In 91 pre -> text <> [] -> ~ In 93 text ->
  ~ In 41 file_path -> ~ In 41 line_spec -> ~ In 58 line_spec ->
  (2 <= count_occ Z.eq_dec line_spec 45%Z)%nat ->
  process_file (pre ++ source_link text (file_path ++ 58 :: line_spec) ++ post)
  = None.
Proof.
  intros Hpre Ht0 Ht Hf Hl Hc Hn.
  assert (Hp : ~ In 41 (file_path ++ 58 :: line_spec)).
  { rewrite in_app_iff. simpl. intros [H|[H|H]]; [tauto | lia | tauto]. }
  assert (Hp0 : file_path ++ 58 :: line_spec <> [])
    by (now destruct file_path).
  pose proof (match_link_intro text _ post Ht0 Ht Hp0 Hp) as E.
  unfold process_file.
  rewrite (re_sub_prefix _ _ Hpre), (re_sub_match _ _ _ _ E).
  now rewrite (convert_link_many_dashes text file_path line_spec Hc Hn).
Qed.

Lemma process_file_malformed_range_raises_witness :
  process_file (pystr_of "See "
                ++ source_link (pystr_of "b")
                     (pystr_of "b.rs" ++ 58 :: pystr_of "1-2-3")
                ++ pystr_of " and [a](/os/src/a.rs).")
  = None.
Proof.
  apply (process_file_malformed_range_raises (pystr_of "See ") (pystr_of "b")
           (pystr_of "b.rs") (pystr_of "1-2-3")
           (pystr_of " and [a](/os/src/a.rs).")); simpl; try discriminate; lia.
Defined.

Lemma main_loop_acc files total_links modified_files files' t m :
  main_loop files total_links modified_files = (files', Some (t, m)) ->
  t = total_links + fold_right Z.add 0 (map findall_count files)
  /\ m = modified_files
         + len (List.filter (fun content => 0 <? findall_count content) files)
  /\ Forall2 (fun content content' => re_sub content = Some content')
       files files'.
Proof.
  revert total_links modified_files files' t m.
  induction files as [|content rest IH]; intros tl mf files' t m.
  - cbn [main_loop]. intros H. apply pair_equal_spec in H as [<- H].
    apply (inj Some) in H. apply pair_equal_spec in H as [<- <-].
    cbn. unfold len. cbn. repeat split; try lia. constructor.
  - cbn [main_loop].
    destruct (process_file content) as [[[n modified] written]|] eqn:E;
      [|intros H; apply pair_equal_spec in H as [_ H]; discriminate].
    destruct (process_file_inv _ _ _ _ E) as (-> & -> & -> & Hm).
    cbn [map fold_right List.filter].
    destruct (0 <? findall_count content) eqn:Ec.
    + destruct (Hm eq_refl) as (new & Hn & _). rewrite Hn.
      destruct (main_loop rest (tl + findall_count content) (mf + 1))
        as [rest' r] eqn:Er.
      intros H. apply pair_equal_spec in H as [<- ->].
      destruct (IH _ _ _ _ _ Er) as (-> & -> & HF).
      unfold len. cbn [length]. repeat split; try lia.
      now constructor.
    + destruct (main_loop rest tl mf) as [rest' r] eqn:Er.
      intros H. apply pair_equal_spec in H as [<- ->].
      destruct (IH _ _ _ _ _ Er) as (-> & -> & HF).
      apply Z.ltb_ge in Ec. pose proof (findall_count_nonneg content).
      repeat split; try lia. constructor; [|exact HF].
      apply sub_links_unchanged. fold (findall_count content). lia.
Qed.

(** The summary of [main]: when no file raises, the number of links it
    reports is the number of links found in all the files, the number of
    modified files is the number of files that hold a link, and every file
    ends up with its rewritten content. *)
Theorem main_loop_summary files files' total_links modified_files :
  main_loop files 0 0 = (files', Some (total_links, modified_files)) ->
  total_links = fold_right Z.add 0 (map findall_count files)
  /\ modified_files
     = len (List.filter (fun content => 0 <? findall_count content) files)
  /\ Forall2 (fun content content' => re_sub content = Some content')
       files files'.
Proof.
  intros H. destruct (main_loop_acc _ _ _ _ _ _ H) as (-> & -> & HF).
  repeat split; try lia. exact HF.
Qed.

Lemma main_loop_summary_witness :
  3 = fold_right Z.add 0 (map findall_count [plain_page; sample_page])
  /\ 1 = len (List.filter (fun content => 0 <? findall_count content)
                [plain_page; sample_page])
  /\ Forall2 (fun content content' => re_sub content = Some content')
       [plain_page; sample_page]
       (fst (main_loop [plain_page; sample_page] 0 0)).
Proof.
  apply (main_loop_summary [plain_page; sample_page]
           (fst (main_loop [plain_page; sample_page] 0 0)) 3 1).
  vm_compute. reflexivity.
Defined.
